(** * TrafCursor: statement execution and buffered row fetch

    A shallow embedding of [pdbc/trafodion/connector/cursor.py]
    (class [TrafCursor]) and the properties of its [execute], [fetchone],
    [fetchmany] and [close] methods.

    The cursor is a record of the Python attributes the methods read and
    write.  Every method is a state transformer over a [World]: the cursor,
    the state behind the transport, and the log of the calls made on the
    statement object.  A method returns its outcome together with the world
    it leaves behind, so that the attribute writes made before a [raise]
    stay visible, as they do in Python. *)

From Stdlib Require Import ZArith List String Bool Lia.
From Stdlib Require Import DecimalString DecimalZ DecimalPos.
Import ListNotations.
Open Scope Z_scope.

Set Implicit Arguments.

(** ** Python values *)

(** A column value of a fetched row. *)
Inductive value :=
| VNull
| VInt (z : Z)
| VStr (s : string).

(** A row is a tuple of column values. *)
Definition row := list value.

(** A byte string, one [Z] in [0, 256) per byte. *)
Definition bytes := list Z.

(** The exceptions the methods can surface.  [TransportError] stands for
    whatever the statement object raises that is not one of the others. *)
Inductive exn :=
| ProgrammingError (msg : string)
| InterfaceError (msg : string)
| InternalError (msg : string)
| AttributeError
| TypeError
| IndexError
| TransportError (code : Z).

(** Outcome of a method call: a returned value or a raised exception. *)
Inductive result (A : Type) :=
| Return (a : A)
| Raise (e : exn).
Arguments Raise {A} e.

(** Truth value of a tuple or of a list: non-empty. *)
Definition truthy {A : Type} (l : list A) : bool :=
  match l with [] => false | _ :: _ => true end.

(** [l[i]] on a Python list: a negative index counts from the end, and an
    index outside [-len, len) raises IndexError ([None] here). *)
Definition py_getitem {A : Type} (l : list A) (i : Z) : option A :=
  let n := Z.of_nat (List.length l) in
  if (0 <=? i) && (i <? n) then nth_error l (Z.to_nat i)
  else if (- n <=? i) && (i <? 0) then nth_error l (Z.to_nat (i + n))
  else None.

(** ** The operation text and its encoding *)

(** [operation] is a [str] (a sequence of code points) or already a byte
    string; [OpNone] is Python's [None]. *)
Inductive operation :=
| OpNone
| OpStr (s : list Z)
| OpBytes (b : bytes).

(** [not operation] is false exactly on a non-empty text. *)
Definition op_truthy (o : operation) : bool :=
  match o with
  | OpNone => false
  | OpStr s => truthy s
  | OpBytes b => truthy b
  end.

(** UTF-8 encoding of one code point; a surrogate (U+D800..U+DFFF) has no
    encoding and makes [str.encode] raise UnicodeEncodeError. *)
Definition utf8_code_point (c : Z) : option bytes :=
  if c <? 128 then Some [c]
  else if c <? 2048 then
    Some [Z.lor 192 (Z.shiftr c 6); Z.lor 128 (Z.land c 63)]
  else if (55296 <=? c) && (c <=? 57343) then None
  else if c <? 65536 then
    Some [Z.lor 224 (Z.shiftr c 12);
          Z.lor 128 (Z.land (Z.shiftr c 6) 63);
          Z.lor 128 (Z.land c 63)]
  else
    Some [Z.lor 240 (Z.shiftr c 18);
          Z.lor 128 (Z.land (Z.shiftr c 12) 63);
          Z.lor 128 (Z.land (Z.shiftr c 6) 63);
          Z.lor 128 (Z.land c 63)].

Fixpoint utf8_encode (s : list Z) : option bytes :=
  match s with
  | [] => Some []
  | c :: s' =>
      match utf8_code_point c, utf8_encode s' with
      | Some b, Some bs => Some (b ++ bs)
      | _, _ => None
      end
  end.

(** A surrogate code point, which UTF-8 cannot encode. *)
Definition is_surrogate (c : Z) : bool := (55296 <=? c) && (c <=? 57343).

(** The position of the first surrogate of a text. *)
Fixpoint surrogate_start (s : list Z) : nat :=
  match s with
  | [] => 0
  | c :: s' => if is_surrogate c then 0 else S (surrogate_start s')
  end.

(** The number of surrogates a text begins with. *)
Fixpoint surrogate_run (s : list Z) : nat :=
  match s with
  | [] => 0
  | c :: s' => if is_surrogate c then S (surrogate_run s') else 0
  end.

(** One lower-case hexadecimal digit, and [%04x] of a code point. *)
Definition hex_digit (d : Z) : Ascii.ascii :=
  if d <? 10 then Ascii.ascii_of_nat (48 + Z.to_nat d)
  else Ascii.ascii_of_nat (87 + Z.to_nat d).

Definition hex4 (c : Z) : string :=
  String (hex_digit (Z.land (Z.shiftr c 12) 15))
    (String (hex_digit (Z.land (Z.shiftr c 8) 15))
       (String (hex_digit (Z.land (Z.shiftr c 4) 15))
          (String (hex_digit (Z.land c 15)) EmptyString))).

(** [%zd] of a position. *)
Definition dec (n : nat) : string :=
  DecimalString.NilZero.string_of_uint (Nat.to_uint n).

(** [str(err)] for the UnicodeEncodeError of [s.encode("utf-8")], which
    [execute] forwards as the message of its ProgrammingError.  The codec
    reports the first run of surrogates, from [start] to [end]: a run of
    one character is named with its code and position, a longer run by
    its first and last position.  The character named is a surrogate, so
    its code is written with four hexadecimal digits. *)
Definition encode_error_msg (s : list Z) : string :=
  let start := surrogate_start s in
  let run := surrogate_run (skipn start s) in
  if Nat.eqb run 1 then
    ("'utf-8' codec can't encode character '\u" ++ hex4 (nth start s 0)
     ++ "' in position " ++ dec start ++ ": surrogates not allowed")%string
  else
    ("'utf-8' codec can't encode characters in position " ++ dec start
     ++ "-" ++ dec (start + run - 1) ++ ": surrogates not allowed")%string.

(** Lines 178-184 of [execute]: bytes are taken as they are, a [str] is
    encoded, and a codec error becomes a ProgrammingError.  [execute] has
    returned before this point on [None], so that case is never used. *)
Definition encode_operation (o : operation) : string + bytes :=
  match o with
  | OpBytes b => inr b
  | OpStr s =>
      match utf8_encode s with
      | Some b => inr b
      | None => inl (encode_error_msg s)
      end
  | OpNone => inr []
  end.

(** ** The collaborators: transport constants and statement objects *)

(** Modelled from the spec: the two execution-mode tags of [Transport]
    (transport.py is not part of the sources at hand); the spec asks for
    "two execution-mode tags (Direct, Prepared)". *)
Inductive exec_tag :=
| SRVR_API_SQLEXECDIRECT
| SRVR_API_SQLEXECUTE2.

Definition exec_tag_eqb (a b : exec_tag) : bool :=
  match a, b with
  | SRVR_API_SQLEXECDIRECT, SRVR_API_SQLEXECDIRECT => true
  | SRVR_API_SQLEXECUTE2, SRVR_API_SQLEXECUTE2 => true
  | _, _ => false
  end.

(** The reply of [Statement.fetch]: the three attributes [fetchone] reads. *)
Record FetchReply := {
  result_set : list row;
  rows_fetched : Z;
  end_of_data : bool
}.

(** The interface of statement.py and of the connection behind it, which
    the cursor only calls.  [Net] is everything that lives behind the
    statement object (socket, server-side statement, other cursors); a
    method of the statement is a function of that state.  [execute] and
    [execute_all] hand back the statement object as the call left it,
    whether they raised or not; [fetch] leaves the Python-visible
    classification of the statement alone. *)
Class StatementAPI := {
  Conn : Type;
  Net : Type;
  Stmt : Type;
  Params : Type;
  TYPE_SELECT : Z;
  sql_stmt_type_ : Stmt -> Z;
  Statement : Conn -> Stmt;
  PreparedStatement : Conn -> Stmt;
  st_execute : Stmt -> bytes -> exec_tag -> Net -> option exn * Stmt * Net;
  st_execute_all :
    Stmt -> bytes -> exec_tag -> option Params -> Net -> option exn * Stmt * Net;
  st_fetch : Stmt -> Net -> (exn + FetchReply) * Net
}.

Section Cursor.

Context {api : StatementAPI}.

(** One call made on the statement object. *)
Inductive call :=
| CallExecute (st : Stmt) (op : bytes) (tag : exec_tag)
| CallExecuteAll (st : Stmt) (op : bytes) (tag : exec_tag) (p : option Params)
| CallFetch (st : Stmt).

(** ** The cursor *)

(** The attributes of [TrafCursor] that its methods use.  [_connection]
    is [None] or a weak proxy of the connection; a bound proxy counts as
    true in [if not self._connection]. *)
Record TrafCursor := {
  arraysize : Z;
  _connection : option Conn;
  _next_row : Z;
  _st : option Stmt;
  _execute_type : exec_tag;
  _result_set : option (list row);
  _end_data : bool;
  _row_cached : Z;
  _executed : option bytes
}.

(** [TrafCursor.__init__], once the connection is bound. *)
Definition new_cursor (connection : option Conn) : TrafCursor :=
  {| arraysize := 1;
     _connection := connection;
     _next_row := 0;
     _st := None;
     _execute_type := SRVR_API_SQLEXECDIRECT;
     _result_set := None;
     _end_data := false;
     _row_cached := 0;
     _executed := None |}.

Definition set_connection (v : option Conn) (c : TrafCursor) : TrafCursor :=
  {| arraysize := arraysize c; _connection := v; _next_row := _next_row c;
     _st := _st c; _execute_type := _execute_type c;
     _result_set := _result_set c; _end_data := _end_data c;
     _row_cached := _row_cached c; _executed := _executed c |}.

Definition set_next_row (v : Z) (c : TrafCursor) : TrafCursor :=
  {| arraysize := arraysize c; _connection := _connection c; _next_row := v;
     _st := _st c; _execute_type := _execute_type c;
     _result_set := _result_set c; _end_data := _end_data c;
     _row_cached := _row_cached c; _executed := _executed c |}.

Definition set_st (v : option Stmt) (c : TrafCursor) : TrafCursor :=
  {| arraysize := arraysize c; _connection := _connection c;
     _next_row := _next_row c; _st := v; _execute_type := _execute_type c;
     _result_set := _result_set c; _end_data := _end_data c;
     _row_cached := _row_cached c; _executed := _executed c |}.

Definition set_execute_type (v : exec_tag) (c : TrafCursor) : TrafCursor :=
  {| arraysize := arraysize c; _connection := _connection c;
     _next_row := _next_row c; _st := _st c; _execute_type := v;
     _result_set := _result_set c; _end_data := _end_data c;
     _row_cached := _row_cached c; _executed := _executed c |}.

Definition set_result_set (v : option (list row)) (c : TrafCursor) : TrafCursor :=
  {| arraysize := arraysize c; _connection := _connection c;
     _next_row := _next_row c; _st := _st c; _execute_type := _execute_type c;
     _result_set := v; _end_data := _end_data c;
     _row_cached := _row_cached c; _executed := _executed c |}.

Definition set_end_data (v : bool) (c : TrafCursor) : TrafCursor :=
  {| arraysize := arraysize c; _connection := _connection c;
     _next_row := _next_row c; _st := _st c; _execute_type := _execute_type c;
     _result_set := _result_set c; _end_data := v;
     _row_cached := _row_cached c; _executed := _executed c |}.

Definition set_row_cached (v : Z) (c : TrafCursor) : TrafCursor :=
  {| arraysize := arraysize c; _connection := _connection c;
     _next_row := _next_row c; _st := _st c; _execute_type := _execute_type c;
     _result_set := _result_set c; _end_data := _end_data c;
     _row_cached := v; _executed := _executed c |}.

Definition set_executed (v : option bytes) (c : TrafCursor) : TrafCursor :=
  {| arraysize := arraysize c; _connection := _connection c;
     _next_row := _next_row c; _st := _st c; _execute_type := _execute_type c;
     _result_set := _result_set c; _end_data := _end_data c;
     _row_cached := _row_cached c; _executed := v |}.

(** ** The world and the method monad *)

Record World := {
  cur : TrafCursor;
  net : Net;
  calls : list call
}.

Definition with_cur (c : TrafCursor) (w : World) : World :=
  {| cur := c; net := net w; calls := calls w |}.

(** A transport call: the network state moves on and the call is logged. *)
Definition with_call (k : call) (n : Net) (w : World) : World :=
  {| cur := cur w; net := n; calls := calls w ++ [k] |}.

(** A method: a result and the world after it, raised or not. *)
Definition M (A : Type) : Type := World -> result A * World.

(** ** [TrafCursor.fetchone] *)

Definition no_result_set : exn :=
  InternalError "No result set available."%string.

(** [self._result_set[i]] when [_result_set] may still be [None]. *)
Definition subscript (rs : option (list row)) (i : Z) : result (option row) :=
  match rs with
  | None => Raise TypeError
  | Some l =>
      match py_getitem l i with
      | Some r => Return (Some r)
      | None => Raise IndexError
      end
  end.

(** Lines 219-240.  The returned [option row] is [None] for Python's
    [None], the "no more rows" sentinel. *)
Definition fetchone : M (option row) := fun w =>
  let c := cur w in
  match _st c with
  | None => (Raise AttributeError, w)
  | Some st =>
      if negb (sql_stmt_type_ st =? TYPE_SELECT) then (Raise no_result_set, w)
      else if _end_data c then (Return None, w)
      else if _next_row c <? _row_cached c then
        let c1 := set_next_row (_next_row c + 1) c in
        (subscript (_result_set c1) (_next_row c1 - 1), with_cur c1 w)
      else
        match st_fetch st (net w) with
        | (inl e, n') => (Raise e, with_call (CallFetch st) n' w)
        | (inr fetch_reply, n') =>
            let w1 := with_call (CallFetch st) n' w in
            let c1 := set_result_set (Some (result_set fetch_reply)) c in
            let c2 := set_end_data (end_of_data fetch_reply) c1 in
            if _end_data c2 then (Return None, with_cur c2 w1)
            else
              let c3 := set_row_cached (rows_fetched fetch_reply) c2 in
              let c4 := set_next_row 1 c3 in
              (subscript (_result_set c4) (_next_row c4 - 1), with_cur c4 w1)
        end
  end.

(** ** [TrafCursor.fetchmany] *)

(** [if row: res.append(row)]: the sentinel and an empty tuple are both
    false and are not appended. *)
Definition append_if_row (res : list row) (r : option row) : list row :=
  match r with
  | Some rw => if truthy rw then res ++ [rw] else res
  | None => res
  end.

(** The [while cnt > 0] loop of lines 249-253, [cnt] iterations to go.  An
    exception of [fetchone] leaves the loop and the method. *)
Fixpoint fetch_loop (cnt : nat) (res : list row) : M (list row) := fun w =>
  match cnt with
  | O => (Return res, w)
  | S k =>
      match fetchone w with
      | (Raise e, w') => (Raise e, w')
      | (Return r, w') => fetch_loop k (append_if_row res r) w'
      end
  end.

(** [size or self.arraysize]. *)
Definition py_or (size dflt : Z) : Z := if size =? 0 then dflt else size.

(** Lines 242-254, for an integer [size]. *)
Definition fetchmany (size : Z) : M (list row) := fun w =>
  let c := cur w in
  match _st c with
  | None => (Raise AttributeError, w)
  | Some st =>
      if negb (sql_stmt_type_ st =? TYPE_SELECT) then (Raise no_result_set, w)
      else
        let cnt := py_or size (arraysize c) in
        fetch_loop (Z.to_nat cnt) [] w
  end.

(** The loop as the specification words it: up to [cnt] calls of the
    fetchOne protocol, stopping the first time the sentinel comes back. *)
Fixpoint fetch_until_sentinel (cnt : nat) (res : list row) : M (list row) :=
  fun w =>
  match cnt with
  | O => (Return res, w)
  | S k =>
      match fetchone w with
      | (Raise e, w') => (Raise e, w')
      | (Return None, w') => (Return res, w')
      | (Return (Some rw), w') => fetch_until_sentinel k (res ++ [rw]) w'
      end
  end.

(** ** [TrafCursor.execute] *)

Definition not_connected : exn :=
  ProgrammingError "Cursor is not connected"%string.

(** What follows the call on the statement object (lines 198-212): the
    call is logged, [self._st] is the object as the call left it, an
    exception propagates, and only a call that returned resets [_end_data]. *)
Definition after_call (c : TrafCursor) (w : World) (k : call)
    (r : option exn * Stmt * Net) : result unit * World :=
  let '(err, st', n') := r in
  let w1 := with_call k n' (with_cur (set_st (Some st') c) w) in
  match err with
  | Some e => (Raise e, w1)
  | None => (Return tt, with_cur (set_end_data false (cur w1)) w1)
  end.

(** Lines 149-212.  [multi] is read and ignored ([if multi: pass]); the
    [except errors.InterfaceError: raise] clause re-raises unchanged. *)
Definition execute (operation0 : operation) (params : option Params)
    (multi : bool) : M unit := fun w =>
  let c := cur w in
  if negb (op_truthy operation0) then (Return tt, w)
  else
    match _connection c with
    | None => (Raise not_connected, w)
    | Some conn =>
        match encode_operation operation0 with
        | inl msg => (Raise (ProgrammingError msg), w)
        | inr _operation =>
            let c1 := set_executed (Some _operation) c in
            let '(tag, st) :=
              match params with
              | Some _ => (SRVR_API_SQLEXECUTE2, PreparedStatement conn)
              | None => (SRVR_API_SQLEXECDIRECT, Statement conn)
              end in
            let c2 := set_st (Some st) (set_execute_type tag c1) in
            if exec_tag_eqb (_execute_type c2) SRVR_API_SQLEXECDIRECT then
              after_call c2 w (CallExecute st _operation (_execute_type c2))
                (st_execute st _operation (_execute_type c2) (net w))
            else
              after_call c2 w
                (CallExecuteAll st _operation (_execute_type c2) params)
                (st_execute_all st _operation (_execute_type c2) params (net w))
        end
    end.

(** ** [TrafCursor.close] *)

(** Lines 256-262. *)
Definition close : M bool := fun w =>
  match _connection (cur w) with
  | None => (Return false, w)
  | Some _ => (Return true, with_cur (set_connection None (cur w)) w)
  end.

(** ** Repeated calls, the buffer invariant and the rows still to come *)

(** [n] calls of [fetchone] in a row, with the outcome of each. *)
Fixpoint fetchone_times (n : nat) (w : World)
  : list (result (option row)) * World :=
  match n with
  | O => ([], w)
  | S k =>
      let '(r, w1) := fetchone w in
      let '(rs, w2) := fetchone_times k w1 in
      (r :: rs, w2)
  end.

Definition buffer_len (c : TrafCursor) : Z :=
  match _result_set c with
  | Some rs => Z.of_nat (List.length rs)
  | None => 0
  end.

(** The invariant of the result buffer: [next_row <= row_cached <= len(buffer)]. *)
Definition buffer_invariant (c : TrafCursor) : Prop :=
  _next_row c <= _row_cached c /\ _row_cached c <= buffer_len c.

Definition rows_truthy (rs : list row) : Prop :=
  Forall (fun r => truthy r = true) rs.

(** A buffer that [fetchone] can serve from: the invariant, a read position
    that is not negative, and rows that are tuples with a column. *)
Definition buffer_ok (c : TrafCursor) : Prop :=
  buffer_invariant c /\ 0 <= _next_row c /\
  match _result_set c with
  | Some rs => rows_truthy rs
  | None => True
  end.

(** [upcoming st n k]: from the network state [n] on, the fetches on [st]
    deliver [k] rows in all before the reply that carries end-of-data, in
    batches that say how many rows they hold and hold at least one. *)
Inductive upcoming (st : Stmt) : Net -> Z -> Prop :=
| upcoming_end : forall n r n',
    st_fetch st n = (inr r, n') ->
    end_of_data r = true ->
    upcoming st n 0
| upcoming_batch : forall n r n' k,
    st_fetch st n = (inr r, n') ->
    end_of_data r = false ->
    rows_fetched r = Z.of_nat (List.length (result_set r)) ->
    1 <= rows_fetched r ->
    rows_truthy (result_set r) ->
    upcoming st n' k ->
    upcoming st n (rows_fetched r + k).

(** The rows remaining before end-of-data for a cursor: none once the flag
    is set, otherwise the unread rest of the cached batch and what the
    transport will still deliver. *)
Inductive rows_left (st : Stmt) (c : TrafCursor) (n : Net) : Z -> Prop :=
| rows_left_none :
    _end_data c = true ->
    rows_left st c n 0
| rows_left_some : forall k,
    _end_data c = false ->
    buffer_ok c ->
    upcoming st n k ->
    rows_left st c n (_row_cached c - _next_row c + k).

End Cursor.

(** ** A scripted statement layer

    An instance of the interface with which the methods can be run: the
    network holds the replies the server will give to the coming fetches
    and a flag for a broken link; a statement object is its
    classification, 1 for a SELECT. *)

Record ScriptNet := {
  link_down : bool;
  pending : list FetchReply
}.

Definition script_type (op : bytes) : Z :=
  match op with
  | 115 :: _ | 83 :: _ => 1
  | _ => 2
  end.

Definition script_execute (st : Z) (op : bytes) (n : ScriptNet)
  : option exn * Z * ScriptNet :=
  if link_down n then (Some (TransportError 1), st, n)
  else (None, script_type op, n).

Definition script_fetch (n : ScriptNet) : (exn + FetchReply) * ScriptNet :=
  if link_down n then (inl (TransportError 1), n)
  else
    match pending n with
    | [] => (inr {| result_set := []; rows_fetched := 0; end_of_data := true |}, n)
    | r :: rest => (inr r, {| link_down := false; pending := rest |})
    end.

Definition ScriptedAPI : StatementAPI :=
  {| Conn := unit;
     Net := ScriptNet;
     Stmt := Z;
     Params := list value;
     TYPE_SELECT := 1;
     sql_stmt_type_ := fun st => st;
     Statement := fun _ => 0;
     PreparedStatement := fun _ => 0;
     st_execute := fun st op _ n => script_execute st op n;
     st_execute_all := fun st op _ _ n => script_execute st op n;
     st_fetch := fun _ n => script_fetch n |}.

(** "select" as a [str]. *)
Definition select_text : operation := OpStr [115; 101; 108; 101; 99; 116].

(** "insert" as a [str]. *)
Definition insert_text : operation := OpStr [105; 110; 115; 101; 114; 116].

Definition row_of (z : Z) : row := [VInt z].

(** A reply of [zs] rows, with more to come. *)
Definition batch (zs : list Z) : FetchReply :=
  {| result_set := map row_of zs;
     rows_fetched := Z.of_nat (List.length zs);
     end_of_data := false |}.

Definition last_reply : FetchReply :=
  {| result_set := []; rows_fetched := 0; end_of_data := true |}.

(** A fresh cursor on a live link whose server will answer the coming
    fetches with [replies]. *)
Definition script_world (replies : list FetchReply) : @World ScriptedAPI :=
  {| cur := @new_cursor ScriptedAPI (Some tt);
     net := {| link_down := false; pending := replies |};
     calls := [] |}.

(** A fresh cursor whose link is broken. *)
Definition down_world : @World ScriptedAPI :=
  {| cur := @new_cursor ScriptedAPI (Some tt);
     net := {| link_down := true; pending := [] |};
     calls := [] |}.

(** A SELECT has been executed and the server holds one batch of three
    rows, then the end of the data. *)
Definition selected_world : @World ScriptedAPI :=
  snd (execute select_text None false
         (script_world [batch [10; 20; 30]; last_reply])).

(** The first of the three rows has been read; two are cached. *)
Definition one_read_world : @World ScriptedAPI :=
  snd (fetchone selected_world).

(** A second SELECT has been executed on the same cursor. *)
Definition reexecuted_world : @World ScriptedAPI :=
  snd (execute select_text None false one_read_world).

(** A cursor that was closed: no connection reference. *)
Definition closed_world : @World ScriptedAPI :=
  snd (close (script_world [])).

(** An INSERT has been executed. *)
Definition inserted_world : @World ScriptedAPI :=
  snd (execute insert_text None false (script_world [])).

(** A SELECT whose first reply holds no row and no end-of-data flag. *)
Definition empty_batch_world : @World ScriptedAPI :=
  snd (execute select_text None false (script_world [batch []])).

(** A SELECT read to the end. *)
Definition exhausted_world : @World ScriptedAPI :=
  snd (fetchmany 4 selected_world).

(** * The rest of the cursor

    The methods [TrafCursor] inherits from [CursorBase], iteration, the
    constructor with its statement label, and the notions used to state
    what sequences of calls do. *)

Section CursorMore.

Context {api : StatementAPI}.

(** ** Inherited from [CursorBase]

    [TrafCursor] does not override these; their body is [pass]: they
    return [None] and touch nothing. *)

(** Lines 84-88. *)
Definition fetchall : M unit := fun w => (Return tt, w).

(** Lines 52-65. *)
Definition executemany (operation0 : operation) (seq_params : list Params)
  : M unit := fun w => (Return tt, w).

(** Lines 25-26. *)
Definition callproc (procname : string) (args : list value) : M unit :=
  fun w => (Return tt, w).

(** Lines 90-92. *)
Definition reset (free : bool) : M unit := fun w => (Return tt, w).

(** ** [TrafCursor.__iter__]

    [__iter__] returns [iter(self.fetchone, None)]: each [next()] calls
    [fetchone] and stops the iteration when the answer is [None].
    [iterate] is a loop over that iterator which collects what it yields,
    as [list(cursor)] does; [fuel] bounds the number of [next()] calls and
    the outcome is [None] when the bound is reached first. *)
Fixpoint iterate (fuel : nat) (acc : list row) (w : World)
  : option (result (list row)) * World :=
  match fuel with
  | O => (None, w)
  | S k =>
      match fetchone w with
      | (Raise e, w') => (Some (Raise e), w')
      | (Return None, w') => (Some (Return acc), w')
      | (Return (Some r), w') => iterate k (acc ++ [r]) w'
      end
  end.

(** ** Sequences of method calls *)

Inductive method_call :=
| DoExecute (o : operation) (params : option Params) (multi : bool)
| DoFetchone
| DoFetchmany (size : Z)
| DoIterate (fuel : nat)
| DoFetchall
| DoClose.

(** The world a call leaves, whatever its outcome. *)
Definition run_call (m : method_call) (w : World) : World :=
  match m with
  | DoExecute o params multi => snd (execute o params multi w)
  | DoFetchone => snd (fetchone w)
  | DoFetchmany size => snd (fetchmany size w)
  | DoIterate fuel => snd (iterate fuel [] w)
  | DoFetchall => snd (fetchall w)
  | DoClose => snd (close w)
  end.

Definition run_calls (ms : list method_call) (w : World) : World :=
  fold_left (fun w' m => run_call m w') ms w.

(** A cursor just constructed on [connection], in front of the network
    state [n]. *)
Definition fresh_world (connection : option Conn) (n : Net) : World :=
  {| cur := new_cursor connection; net := n; calls := [] |}.

(** ** The rows ahead of a cursor *)

(** [ahead st n rows k]: from the network state [n] on, the fetches on
    [st] deliver the rows [rows], in this order, in [k] replies of which
    the last carries end-of-data; every reply before it counts its rows
    and has at least one. *)
Inductive ahead (st : Stmt) : Net -> list row -> nat -> Prop :=
| ahead_end : forall n r n',
    st_fetch st n = (inr r, n') ->
    end_of_data r = true ->
    ahead st n [] 1
| ahead_batch : forall n r n' rows k,
    st_fetch st n = (inr r, n') ->
    end_of_data r = false ->
    rows_fetched r = Z.of_nat (List.length (result_set r)) ->
    result_set r <> [] ->
    ahead st n' rows k ->
    ahead st n (result_set r ++ rows) (S k).

(** The rows of the cached batch that have not been read. *)
Definition unread (c : TrafCursor) : list row :=
  match _result_set c with
  | Some rs =>
      skipn (Z.to_nat (_next_row c)) (firstn (Z.to_nat (_row_cached c)) rs)
  | None => []
  end.

Definition buffer_ready (c : TrafCursor) : Prop :=
  buffer_invariant c /\ 0 <= _next_row c.

(** The rows a cursor has still to return, and the number of transport
    fetches it takes to get them and the end of the data. *)
Inductive rows_ahead (st : Stmt) (c : TrafCursor) (n : Net)
  : list row -> nat -> Prop :=
| rows_ahead_none :
    _end_data c = true ->
    rows_ahead st c n [] 0
| rows_ahead_some : forall rows k,
    _end_data c = false ->
    buffer_ready c ->
    ahead st n rows k ->
    rows_ahead st c n (unread c ++ rows) k.

(** ** Invariants of the cursor's attributes *)

(** Whenever end-of-data is set, the cached batch has been used up. *)
Definition used_up_at_end (c : TrafCursor) : Prop :=
  _end_data c = true -> _row_cached c <= _next_row c.

(** A statement is there exactly when a text has been recorded. *)
Definition statement_iff_executed (c : TrafCursor) : Prop :=
  _st c = None <-> _executed c = None.

(** Whenever the cached path can be taken, its index is in the buffer. *)
Definition cache_in_bounds (c : TrafCursor) : Prop :=
  0 <= _next_row c /\
  (_next_row c < _row_cached c ->
   exists rs, _result_set c = Some rs /\
              _row_cached c <= Z.of_nat (List.length rs)).

(** A transport whose replies, unless they carry end-of-data, hold at
    least one row and claim no more rows than they hold. *)
Definition counted_replies : Prop :=
  forall st n r n',
    st_fetch st n = (inr r, n') ->
    end_of_data r = false ->
    result_set r <> [] /\
    rows_fetched r <= Z.of_nat (List.length (result_set r)).

(** The three facts that hold of a cursor however it has been used. *)
Definition attributes_consistent (c : TrafCursor) : Prop :=
  0 <= _next_row c /\ used_up_at_end c /\ statement_iff_executed c.

(** [c'] has the connection, statement, execute-mode tag, last-executed
    text and array size of [c]. *)
Definition same_binding (c c' : TrafCursor) : Prop :=
  _connection c' = _connection c /\ _st c' = _st c /\
  _execute_type c' = _execute_type c /\ _executed c' = _executed c /\
  arraysize c' = arraysize c.

End CursorMore.

(** ** The constructor and the statement label *)

(** The two methods of the connection that the cursor calls
    (the connection class is not part of cursor.py): a method is a
    function of the state behind the connection and may raise. *)
Class ConnectionAPI (api : StatementAPI) := {
  is_connected : Conn -> Net -> option exn * Net;
  get_seq : Conn -> Net -> (exn + Z) * Net
}.

(** [str(n)] for an integer: its decimal numeral, with a minus sign for a
    negative number. *)
Definition py_str (z : Z) : string :=
  DecimalString.NilZero.string_of_int (Z.to_int z).

Section Constructor.

Context {api : StatementAPI} {capi : ConnectionAPI api}.

(** The [connection] argument of the constructor: [None], an object of
    which [weakref.proxy] cannot take a weak reference (it raises
    TypeError), or a connection object. *)
Inductive conn_arg :=
| ConnNone
| ConnNoWeakref
| ConnObject (conn : Conn).

(** Lines 141-147: the proxy is stored before the liveness check, and an
    AttributeError or TypeError of either step is swallowed.  The result
    is the exception that escapes, if any, and the cursor as it is left. *)
Definition _set_connection (connection : conn_arg) (c : TrafCursor) (n : Net)
  : option exn * TrafCursor * Net :=
  match connection with
  | ConnNone | ConnNoWeakref => (None, c, n)
  | ConnObject conn =>
      let c1 := set_connection (Some conn) c in
      match is_connected conn n with
      | (None, n') => (None, c1, n')
      | (Some AttributeError, n') | (Some TypeError, n') => (None, c1, n')
      | (Some e, n') => (Some e, c1, n')
      end
  end.

(** Lines 214-217. *)
Definition _generate_stmtlabel (c : TrafCursor) (n : Net)
  : result string * Net :=
  match _connection c with
  | None => (Raise AttributeError, n)
  | Some conn =>
      match get_seq conn n with
      | (inl e, n') => (Raise e, n')
      | (inr cursor_id, n') => (Return ("SQL_CUR_" ++ py_str cursor_id)%string, n')
      end
  end.

(** Lines 116-132: the new cursor and its [_stmt_name], or the exception
    that leaves the constructor. *)
Definition TrafCursor_init (connection : conn_arg) (n : Net)
  : result (TrafCursor * string) * Net :=
  let c0 := new_cursor None in
  let '(err, c1, n1) :=
    match connection with
    | ConnNone => (None, c0, n)
    | _ => _set_connection connection c0 n
    end in
  match err with
  | Some e => (Raise e, n1)
  | None =>
      match _generate_stmtlabel c1 n1 with
      | (Raise e, n2) => (Raise e, n2)
      | (Return label, n2) => (Return (c1, label), n2)
      end
  end.

End Constructor.

(** ** A transport that serves non-empty batches

    A second instance of the interface: every reply before the end of the
    data holds the rows of one non-empty batch and counts them; the
    connection hands out consecutive sequence values. *)

Record BatchNet := {
  next_seq : Z;
  liveness : option exn;
  batches : list (row * list row)
}.

Definition batch_fetch (n : BatchNet) : (exn + FetchReply) * BatchNet :=
  match batches n with
  | [] => (inr last_reply, n)
  | (r, rs) :: rest =>
      (inr {| result_set := r :: rs;
              rows_fetched := Z.of_nat (List.length (r :: rs));
              end_of_data := false |},
       {| next_seq := next_seq n;
          liveness := liveness n;
          batches := rest |})
  end.

Definition BatchAPI : StatementAPI :=
  {| Conn := unit;
     Net := BatchNet;
     Stmt := Z;
     Params := list value;
     TYPE_SELECT := 1;
     sql_stmt_type_ := fun st => st;
     Statement := fun _ => 0;
     PreparedStatement := fun _ => 0;
     st_execute := fun _ op _ n => (None, script_type op, n);
     st_execute_all := fun _ op _ _ n => (None, script_type op, n);
     st_fetch := fun _ n => batch_fetch n |}.

Definition BatchConnection : ConnectionAPI BatchAPI :=
  @Build_ConnectionAPI BatchAPI
    (fun (_ : unit) (n : BatchNet) => (liveness n, n))
    (fun (_ : unit) (n : BatchNet) =>
       (inr (next_seq n),
        {| next_seq := next_seq n + 1;
           liveness := liveness n;
           batches := batches n |})).

(** The network state of a server that holds [bs], behind a connection
    whose liveness check answers [live] and whose next sequence value is
    [s]. *)
Definition batch_net (s : Z) (live : option exn)
    (bs : list (row * list row)) : BatchNet :=
  {| next_seq := s; liveness := live; batches := bs |}.

(** A fresh cursor on a connection whose server holds [bs]. *)
Definition batch_world (bs : list (row * list row)) : @World BatchAPI :=
  {| cur := @new_cursor BatchAPI (Some tt);
     net := batch_net 7 None bs;
     calls := [] |}.

(** Two batches, of two rows and of one row. *)
Definition two_batches : list (row * list row) :=
  [(row_of 10, [row_of 20]); (row_of 30, [])].

(** A SELECT has been executed on [batch_world two_batches]. *)
Definition batch_selected : @World BatchAPI :=
  snd (execute select_text None false (batch_world two_batches)).

(** The three rows of [two_batches]. *)
Definition three_rows : list row := [row_of 10; row_of 20; row_of 30].

(** A SELECT is executed and its result set is read to the end. *)
Definition read_to_end : list (@method_call BatchAPI) :=
  [DoExecute select_text None false; DoIterate 5].

(** The cursor after [read_to_end] on [two_batches]. *)
Definition batch_exhausted : @World BatchAPI :=
  run_calls read_to_end (@fresh_world BatchAPI (Some tt)
                           (batch_net 7 None two_batches)).


(** * Properties *)

Section Properties.

Context {api : StatementAPI}.

Implicit Types (w : World) (c : TrafCursor) (st : Stmt).

(** ** Shared facts about [fetchone] *)

Lemma with_cur_cur w : with_cur (cur w) w = w.
Proof. destruct w; reflexivity. Qed.

(** The guard on the statement's classification, as an equation. *)
Lemma select_guard st :
  sql_stmt_type_ st = TYPE_SELECT ->
  negb (sql_stmt_type_ st =? TYPE_SELECT) = false.
Proof. intros ->. now rewrite Z.eqb_refl. Qed.

Lemma non_select_guard st :
  sql_stmt_type_ st <> TYPE_SELECT ->
  negb (sql_stmt_type_ st =? TYPE_SELECT) = true.
Proof. intros H. apply Z.eqb_neq in H. now rewrite H. Qed.

(** On an exhausted SELECT, [fetchone] is the identity on the world. *)
Lemma fetchone_end_data w st :
  _st (cur w) = Some st ->
  sql_stmt_type_ st = TYPE_SELECT ->
  _end_data (cur w) = true ->
  fetchone w = (Return None, w).
Proof.
  intros Hst Hsel Hend. unfold fetchone.
  now rewrite Hst, (select_guard _ Hsel), Hend.
Qed.

(** The cached path: the read position moves and nothing else does. *)
Lemma fetchone_cached w st :
  _st (cur w) = Some st ->
  sql_stmt_type_ st = TYPE_SELECT ->
  _end_data (cur w) = false ->
  _next_row (cur w) < _row_cached (cur w) ->
  fetchone w =
    (subscript (_result_set (cur w)) (_next_row (cur w)),
     with_cur (set_next_row (_next_row (cur w) + 1) (cur w)) w).
Proof.
  intros Hst Hsel Hend Hlt. unfold fetchone.
  rewrite Hst, (select_guard _ Hsel), Hend.
  apply Z.ltb_lt in Hlt. rewrite Hlt. cbn.
  now replace (_next_row (cur w) + 1 - 1) with (_next_row (cur w)) by lia.
Qed.

(** The refill path, by what the transport answers. *)
Lemma fetchone_refill w st :
  _st (cur w) = Some st ->
  sql_stmt_type_ st = TYPE_SELECT ->
  _end_data (cur w) = false ->
  _row_cached (cur w) <= _next_row (cur w) ->
  fetchone w =
    match st_fetch st (net w) with
    | (inl e, n') => (Raise e, with_call (CallFetch st) n' w)
    | (inr rep, n') =>
        let w1 := with_call (CallFetch st) n' w in
        let c1 := set_result_set (Some (result_set rep)) (cur w) in
        if end_of_data rep
        then (Return None, with_cur (set_end_data true c1) w1)
        else (subscript (Some (result_set rep)) 0,
              with_cur (set_next_row 1
                          (set_row_cached (rows_fetched rep)
                             (set_end_data false c1))) w1)
    end.
Proof.
  intros Hst Hsel Hend Hge. unfold fetchone.
  rewrite Hst, (select_guard _ Hsel), Hend.
  assert (Hlt : (_next_row (cur w) <? _row_cached (cur w)) = false)
    by (apply Z.ltb_ge; lia).
  rewrite Hlt.
  destruct (st_fetch st (net w)) as [[e | rep] n']; [reflexivity|].
  cbn. destruct (end_of_data rep); reflexivity.
Qed.

(** ** C3: [execute] without a connection *)

(** C3 (as amended): for every non-empty operation text and every
    parameter value, [execute] on a cursor whose connection reference is
    absent raises ProgrammingError("Cursor is not connected") and leaves
    the world as it was: no call reaches the transport. *)
Theorem execute_not_connected (o : operation) (params : option Params)
    (multi : bool) w :
  op_truthy o = true ->
  _connection (cur w) = None ->
  execute o params multi w
  = (Raise (ProgrammingError "Cursor is not connected"), w).
Proof.
  intros Hop Hconn. unfold execute. now rewrite Hop, Hconn.
Qed.

(** ** C4: an exhausted result set *)

(** C4: once the end-of-data flag is set, [fetchone] never changes the
    world (no transport fetch, buffer untouched) whatever it answers, and
    on a row-producing statement any number [n] of calls in a row all
    return the sentinel [None] and leave the world as it was. *)
Theorem fetchone_exhausted w :
  _end_data (cur w) = true ->
  snd (fetchone w) = w /\
  forall st, _st (cur w) = Some st -> sql_stmt_type_ st = TYPE_SELECT ->
    forall n, fetchone_times n w = (repeat (Return None) n, w).
Proof.
  intros Hend. split.
  - unfold fetchone. destruct (_st (cur w)) as [st|]; [|reflexivity].
    destruct (negb (sql_stmt_type_ st =? TYPE_SELECT)); [reflexivity|].
    now rewrite Hend.
  - intros st Hst Hsel n. induction n as [|n IH]; [reflexivity|].
    cbn [fetchone_times repeat].
    now rewrite (fetchone_end_data _ Hst Hsel Hend), IH.
Qed.

(** ** C6: fetching without a result set *)

(** C6: when the active statement's classification is not TYPE_SELECT,
    [fetchone] and [fetchmany], for every size, raise
    InternalError("No result set available.") and return no row; the
    world is left as it was. *)
Theorem fetch_without_result_set w st :
  _st (cur w) = Some st ->
  sql_stmt_type_ st <> TYPE_SELECT ->
  fetchone w = (Raise (InternalError "No result set available."), w) /\
  forall size,
    fetchmany size w = (Raise (InternalError "No result set available."), w).
Proof.
  intros Hst Hne. split; [|intros size]; unfold fetchone, fetchmany;
    now rewrite Hst, (non_select_guard _ Hne).
Qed.

(** ** C8: [close] *)

Lemma set_connection_absent c :
  _connection c = None -> set_connection None c = c.
Proof. destruct c; cbn; intros ->; reflexivity. Qed.

(** C8: [close] always returns, never raises: [False] on a cursor with no
    connection reference, which it leaves as it was, and [True] on a bound
    cursor, whose connection reference alone it clears; a [close] right
    after a [close] returns [False] and changes nothing. *)
Theorem close_idempotent w :
  fst (close w)
  = Return (match _connection (cur w) with Some _ => true | None => false end)
  /\ snd (close w) = with_cur (set_connection None (cur w)) w
  /\ (_connection (cur w) = None -> close w = (Return false, w))
  /\ close (snd (close w)) = (Return false, snd (close w)).
Proof.
  unfold close.
  destruct (_connection (cur w)) as [conn|] eqn:Hconn; cbn.
  - repeat split. intros H; discriminate H.
  - rewrite (set_connection_absent _ Hconn), with_cur_cur.
    rewrite Hconn. repeat split.
Qed.

(** ** C5: serving from the cache, one round trip per refill *)

Lemma py_getitem_in_range (A : Type) (l : list A) (i : Z) :
  0 <= i < Z.of_nat (List.length l) ->
  exists x, nth_error l (Z.to_nat i) = Some x /\ py_getitem l i = Some x.
Proof.
  intros Hi. unfold py_getitem.
  assert (H1 : (0 <=? i) && (i <? Z.of_nat (List.length l)) = true).
  { apply andb_true_iff. split; [apply Z.leb_le | apply Z.ltb_lt]; lia. }
  rewrite H1.
  destruct (nth_error l (Z.to_nat i)) as [x|] eqn:Hn.
  - now exists x.
  - apply nth_error_None in Hn. lia.
Qed.

(** C5: on a row-producing statement with end-of-data unset,
    (1) while [next_row < row_cached], [fetchone] answers
    [_result_set[next_row]] at the old position, adds one to the read
    position and touches neither the network nor the call log, and under
    the buffer invariant that row exists and is returned;
    (2) one call of [fetchone] logs at most one transport fetch, and logs
    one only when the cached batch is used up ([row_cached <= next_row]);
    (3) after a refill whose reply carries no end-of-data flag the read
    position is 1 and the answer is the first row of the new batch. *)
Theorem fetchone_cache_protocol w st :
  _st (cur w) = Some st ->
  sql_stmt_type_ st = TYPE_SELECT ->
  _end_data (cur w) = false ->
  (_next_row (cur w) < _row_cached (cur w) ->
     fetchone w =
       (subscript (_result_set (cur w)) (_next_row (cur w)),
        with_cur (set_next_row (_next_row (cur w) + 1) (cur w)) w)
     /\ net (snd (fetchone w)) = net w
     /\ calls (snd (fetchone w)) = calls w
     /\ (0 <= _next_row (cur w) -> buffer_invariant (cur w) ->
         exists rs r,
           _result_set (cur w) = Some rs /\
           nth_error rs (Z.to_nat (_next_row (cur w))) = Some r /\
           fst (fetchone w) = Return (Some r)))
  /\ (calls (snd (fetchone w)) = calls w \/
      (calls (snd (fetchone w)) = calls w ++ [CallFetch st] /\
       _row_cached (cur w) <= _next_row (cur w)))
  /\ (forall rep n',
        _row_cached (cur w) <= _next_row (cur w) ->
        st_fetch st (net w) = (inr rep, n') ->
        end_of_data rep = false ->
        _next_row (cur (snd (fetchone w))) = 1 /\
        _result_set (cur (snd (fetchone w))) = Some (result_set rep) /\
        fst (fetchone w) = subscript (Some (result_set rep)) 0).
Proof.
  intros Hst Hsel Hend. split; [|split].
  - intros Hlt. rewrite (fetchone_cached _ Hst Hsel Hend Hlt). cbn.
    repeat split. intros Hpos [_ Hlen]. unfold buffer_len in Hlen.
    destruct (_result_set (cur w)) as [rs|] eqn:Hrs; [|lia].
    destruct (@py_getitem_in_range _ rs (_next_row (cur w))) as (r & Hn & Hg);
      [lia|].
    exists rs, r. cbn. now rewrite Hg.
  - destruct (Z.lt_ge_cases (_next_row (cur w)) (_row_cached (cur w)))
      as [Hlt | Hge].
    + left. now rewrite (fetchone_cached _ Hst Hsel Hend Hlt).
    + right. split; [|exact Hge].
      rewrite (fetchone_refill _ Hst Hsel Hend Hge).
      destruct (st_fetch st (net w)) as [[e | rep] n']; [reflexivity|].
      cbn. destruct (end_of_data rep); reflexivity.
  - intros rep n' Hge Hf Heod.
    rewrite (fetchone_refill _ Hst Hsel Hend Hge), Hf. cbn.
    rewrite Heod. cbn. repeat split.
Qed.

(** ** C10: a reply without rows and without the end-of-data flag *)

(** C10: on the refill path, for a reply whose end-of-data flag is unset,
    [fetchone] sets the read position to 1, the cached count to the
    reply's [rows_fetched] and reads index 0 of the reply's rows: it
    returns a row exactly when the row list has a first row, raises
    IndexError exactly when the list is empty, and for a reply that counts
    its rows, succeeds exactly when [rows_fetched >= 1]; a reply with
    [rows_fetched = 0] leaves [next_row = 1 > row_cached = 0], so the
    buffer invariant no longer holds. *)
Theorem fetchone_refill_needs_a_row w st (rep : FetchReply) (n' : Net) :
  _st (cur w) = Some st ->
  sql_stmt_type_ st = TYPE_SELECT ->
  _end_data (cur w) = false ->
  _row_cached (cur w) <= _next_row (cur w) ->
  st_fetch st (net w) = (inr rep, n') ->
  end_of_data rep = false ->
  let w' := snd (fetchone w) in
  _next_row (cur w') = 1
  /\ _row_cached (cur w') = rows_fetched rep
  /\ _result_set (cur w') = Some (result_set rep)
  /\ (forall r, fst (fetchone w) = Return (Some r) <->
                nth_error (result_set rep) 0 = Some r)
  /\ (fst (fetchone w) = Raise IndexError <-> result_set rep = [])
  /\ (rows_fetched rep = Z.of_nat (List.length (result_set rep)) ->
      ((exists r, fst (fetchone w) = Return (Some r)) <-> 1 <= rows_fetched rep))
  /\ (rows_fetched rep = 0 ->
      _row_cached (cur w') < _next_row (cur w') /\ ~ buffer_invariant (cur w')).
Proof.
  intros Hst Hsel Hend Hge Hf Heod w'. subst w'.
  rewrite (fetchone_refill _ Hst Hsel Hend Hge), Hf. cbn. rewrite Heod. cbn.
  destruct (result_set rep) as [|r0 rs] eqn:Hrs; cbn;
    (split; [reflexivity|]); (split; [reflexivity|]); (split; [reflexivity|]).
  - split; [intros r; split; intros H; discriminate H|].
    split; [split; reflexivity|].
    split.
    + intros Hc. split; [intros [r Hr]; discriminate Hr | cbn in Hc; lia].
    + intros H0. split; [lia|]. intros [H1 _]. cbn in H1. lia.
  - split; [intros r; split; congruence|].
    split; [split; intros H; discriminate H|].
    split.
    + intros Hc. split; [intros _; cbn in Hc; lia | intros _; now exists r0].
    + intros H0. split; [lia|]. intros [H1 _]. cbn in H1. lia.
Qed.

(** ** [execute]: what it writes, and when *)

(** The statement object and the tag that [execute] chooses from [params]. *)
Lemma execute_dispatch (o : operation) (b : bytes) (params : option Params)
    (multi : bool) w (conn : Conn) :
  op_truthy o = true ->
  _connection (cur w) = Some conn ->
  encode_operation o = inr b ->
  execute o params multi w =
    match params with
    | Some p =>
        let st := PreparedStatement conn in
        after_call
          (set_st (Some st)
             (set_execute_type SRVR_API_SQLEXECUTE2
                (set_executed (Some b) (cur w)))) w
          (CallExecuteAll st b SRVR_API_SQLEXECUTE2 (Some p))
          (st_execute_all st b SRVR_API_SQLEXECUTE2 (Some p) (net w))
    | None =>
        let st := Statement conn in
        after_call
          (set_st (Some st)
             (set_execute_type SRVR_API_SQLEXECDIRECT
                (set_executed (Some b) (cur w)))) w
          (CallExecute st b SRVR_API_SQLEXECDIRECT)
          (st_execute st b SRVR_API_SQLEXECDIRECT (net w))
    end.
Proof.
  intros Hop Hconn Henc. unfold execute.
  rewrite Hop, Hconn, Henc. cbn.
  destruct params as [p|]; reflexivity.
Qed.

(** Whatever the outcome of the call on the statement object, the world
    after it is the one [after_call] builds. *)
Lemma after_call_world c w (k : call) (err : option exn) st (n' : Net) :
  let r := after_call c w k (err, st, n') in
  fst r = match err with Some e => Raise e | None => Return tt end
  /\ calls (snd r) = calls w ++ [k]
  /\ net (snd r) = n'
  /\ _st (cur (snd r)) = Some st
  /\ _executed (cur (snd r)) = _executed c
  /\ _execute_type (cur (snd r)) = _execute_type c
  /\ _result_set (cur (snd r)) = _result_set c
  /\ _row_cached (cur (snd r)) = _row_cached c
  /\ _next_row (cur (snd r)) = _next_row c
  /\ _end_data (cur (snd r))
     = match err with Some _ => _end_data c | None => false end.
Proof. destruct err; cbn; repeat split. Qed.

(** [execute] never writes the buffer, the cached count or the read
    position, and writes the end-of-data flag only when it returns. *)
Lemma execute_keeps_buffer (o : operation) (params : option Params)
    (multi : bool) w :
  let w' := snd (execute o params multi w) in
  _result_set (cur w') = _result_set (cur w)
  /\ _row_cached (cur w') = _row_cached (cur w)
  /\ _next_row (cur w') = _next_row (cur w)
  /\ (forall e, fst (execute o params multi w) = Raise e ->
      _end_data (cur w') = _end_data (cur w)).
Proof.
  unfold execute.
  destruct (op_truthy o); cbn; [|repeat split].
  destruct (_connection (cur w)) as [conn|]; [|repeat split].
  destruct (encode_operation o) as [msg | b]; [repeat split|].
  destruct params as [p|]; cbn.
  - destruct (st_execute_all _ _ _ _ _) as [[[e|] st'] n']; cbn;
      repeat split; intros e' H; discriminate H.
  - destruct (st_execute _ _ _ _) as [[[e|] st'] n']; cbn;
      repeat split; intros e' H; discriminate H.
Qed.

(** ** C7: Direct or Prepared *)

(** C7 (as amended): for every non-empty operation text that is a byte
    string or encodes as UTF-8, on a connected cursor: with parameters,
    [execute] records the tag SRVR_API_SQLEXECUTE2, builds a
    PreparedStatement and makes one call, [execute_all], with the encoded
    text and the parameters; without parameters it records
    SRVR_API_SQLEXECDIRECT, builds a Statement and makes one call,
    [execute], with the encoded text alone.  In both cases the encoded
    text is recorded as last executed, and the outcome is the one of that
    call. *)
Theorem execute_mode_selection (o : operation) (b : bytes)
    (params : option Params) (multi : bool) w (conn : Conn) :
  op_truthy o = true ->
  _connection (cur w) = Some conn ->
  encode_operation o = inr b ->
  let w' := snd (execute o params multi w) in
  _executed (cur w') = Some b /\
  match params with
  | Some p =>
      let r := st_execute_all (PreparedStatement conn) b
                 SRVR_API_SQLEXECUTE2 (Some p) (net w) in
      _execute_type (cur w') = SRVR_API_SQLEXECUTE2
      /\ calls w' = calls w ++
           [CallExecuteAll (PreparedStatement conn) b
              SRVR_API_SQLEXECUTE2 (Some p)]
      /\ _st (cur w') = Some (snd (fst r))
      /\ net w' = snd r
      /\ fst (execute o params multi w)
         = match fst (fst r) with Some e => Raise e | None => Return tt end
  | None =>
      let r := st_execute (Statement conn) b SRVR_API_SQLEXECDIRECT (net w) in
      _execute_type (cur w') = SRVR_API_SQLEXECDIRECT
      /\ calls w' = calls w ++
           [CallExecute (Statement conn) b SRVR_API_SQLEXECDIRECT]
      /\ _st (cur w') = Some (snd (fst r))
      /\ net w' = snd r
      /\ fst (execute o params multi w)
         = match fst (fst r) with Some e => Raise e | None => Return tt end
  end.
Proof.
  intros Hop Hconn Henc w'. subst w'.
  rewrite (@execute_dispatch o b params multi w conn Hop Hconn Henc).
  destruct params as [p|]; cbn zeta.
  - destruct (st_execute_all _ _ _ _ _) as [[err st'] n'].
    destruct (after_call_world
                (set_st (Some (PreparedStatement conn))
                   (set_execute_type SRVR_API_SQLEXECUTE2
                      (set_executed (Some b) (cur w)))) w
                (CallExecuteAll (PreparedStatement conn) b
                   SRVR_API_SQLEXECUTE2 (Some p)) err st' n')
      as (H1 & H2 & H3 & H4 & H5 & H6 & _).
    cbn in *. repeat split; assumption.
  - destruct (st_execute _ _ _ _) as [[err st'] n'].
    destruct (after_call_world
                (set_st (Some (Statement conn))
                   (set_execute_type SRVR_API_SQLEXECDIRECT
                      (set_executed (Some b) (cur w)))) w
                (CallExecute (Statement conn) b SRVR_API_SQLEXECDIRECT)
                err st' n')
      as (H1 & H2 & H3 & H4 & H5 & H6 & _).
    cbn in *. repeat split; assumption.
Qed.

(** ** C9: a call that fails in the transport *)

(** C9 (as amended): when the transport raises in [fetchone], the cursor
    holds the same values after the call as before it.  When [execute]
    raises, the result buffer, the cached-row count, the read position and
    the end-of-data flag hold the same values as before; and when it has
    reached the transport, the last-executed text, the execute-mode tag
    and the active statement are already those of the new call. *)
Theorem failed_call_state w :
  (forall st e n',
     _st (cur w) = Some st ->
     sql_stmt_type_ st = TYPE_SELECT ->
     _end_data (cur w) = false ->
     _row_cached (cur w) <= _next_row (cur w) ->
     st_fetch st (net w) = (inl e, n') ->
     fst (fetchone w) = Raise e /\ cur (snd (fetchone w)) = cur w)
  /\
  (forall o params multi e,
     fst (execute o params multi w) = Raise e ->
     let w' := snd (execute o params multi w) in
     _result_set (cur w') = _result_set (cur w)
     /\ _row_cached (cur w') = _row_cached (cur w)
     /\ _next_row (cur w') = _next_row (cur w)
     /\ _end_data (cur w') = _end_data (cur w)
     /\ (calls w' <> calls w ->
         exists b st',
           encode_operation o = inr b
           /\ _executed (cur w') = Some b
           /\ _execute_type (cur w')
              = match params with
                | Some _ => SRVR_API_SQLEXECUTE2
                | None => SRVR_API_SQLEXECDIRECT
                end
           /\ _st (cur w') = Some st')).
Proof.
  split.
  - intros st e n' Hst Hsel Hend Hge Hf.
    rewrite (fetchone_refill _ Hst Hsel Hend Hge), Hf. cbn. split; reflexivity.
  - intros o params multi e Hraise w'. subst w'.
    destruct (execute_keeps_buffer o params multi w) as (H1 & H2 & H3 & H4).
    split; [exact H1|]. split; [exact H2|]. split; [exact H3|].
    split; [exact (H4 e Hraise)|].
    intros Hcalls.
    destruct (op_truthy o) eqn:Hop;
      [|exfalso; apply Hcalls; unfold execute; now rewrite Hop].
    destruct (_connection (cur w)) as [conn|] eqn:Hconn;
      [|exfalso; apply Hcalls; unfold execute; now rewrite Hop, Hconn].
    destruct (encode_operation o) as [msg | b] eqn:Henc;
      [exfalso; apply Hcalls; unfold execute; now rewrite Hop, Hconn, Henc|].
    rewrite (@execute_dispatch o b params multi w conn Hop Hconn Henc).
    exists b. destruct params as [p|]; cbn zeta.
    + destruct (st_execute_all _ _ _ _ _) as [[err st'] n'].
      destruct (after_call_world
                  (set_st (Some (PreparedStatement conn))
                     (set_execute_type SRVR_API_SQLEXECUTE2
                        (set_executed (Some b) (cur w)))) w
                  (CallExecuteAll (PreparedStatement conn) b
                     SRVR_API_SQLEXECUTE2 (Some p)) err st' n')
        as (_ & _ & _ & K4 & K5 & K6 & _).
      exists st'. cbn in *. repeat split; assumption.
    + destruct (st_execute _ _ _ _) as [[err st'] n'].
      destruct (after_call_world
                  (set_st (Some (Statement conn))
                     (set_execute_type SRVR_API_SQLEXECDIRECT
                        (set_executed (Some b) (cur w)))) w
                  (CallExecute (Statement conn) b SRVR_API_SQLEXECDIRECT)
                  err st' n')
        as (_ & _ & _ & K4 & K5 & K6 & _).
      exists st'. cbn in *. repeat split; assumption.
Qed.

(** ** C2: how many rows [fetchmany] returns *)

Lemma upcoming_nonneg st (n : Net) (k : Z) : upcoming st n k -> 0 <= k.
Proof. induction 1; lia. Qed.

Lemma rows_truthy_nth (rs : list row) (i : nat) (r : row) :
  rows_truthy rs -> nth_error rs i = Some r -> truthy r = true.
Proof.
  intros Hall Hn. unfold rows_truthy in Hall.
  rewrite Forall_forall in Hall. apply Hall. eapply nth_error_In; eauto.
Qed.

(** One call of [fetchone] when [m] rows are left: with none left it
    returns the sentinel and the flag is set; otherwise it returns a row
    with a column and [m - 1] rows are left. *)
Lemma fetchone_rows_left w st (m : Z) :
  _st (cur w) = Some st ->
  sql_stmt_type_ st = TYPE_SELECT ->
  rows_left st (cur w) (net w) m ->
  exists r w',
    fetchone w = (Return r, w') /\ _st (cur w') = Some st /\
    ((m = 0 /\ r = None /\ _end_data (cur w') = true) \/
     (0 < m /\ exists rw, r = Some rw /\ truthy rw = true /\
                rows_left st (cur w') (net w') (m - 1))).
Proof.
  intros Hst Hsel Hleft.
  destruct Hleft as [Hend | k Hend Hok Hup].
  - exists None, w. rewrite (fetchone_end_data _ Hst Hsel Hend).
    split; [reflexivity|]. split; [exact Hst|]. left. repeat split. exact Hend.
  - pose proof (upcoming_nonneg Hup) as Hk.
    destruct Hok as ([Hle Hlen] & Hpos & Htr).
    destruct (Z.lt_ge_cases (_next_row (cur w)) (_row_cached (cur w)))
      as [Hlt | Hge].
    + rewrite (fetchone_cached _ Hst Hsel Hend Hlt).
      unfold buffer_len in Hlen.
      destruct (_result_set (cur w)) as [rs|] eqn:Hrs; [|lia].
      destruct (@py_getitem_in_range _ rs (_next_row (cur w)))
        as (r & Hn & Hg); [lia|].
      exists (Some r). eexists. cbn. rewrite Hg. split; [reflexivity|].
      cbn. split; [exact Hst|]. right. split; [lia|].
      exists r. split; [reflexivity|].
      split; [exact (@rows_truthy_nth _ _ _ Htr Hn)|].
      replace (_row_cached (cur w) - _next_row (cur w) + k - 1)
        with (_row_cached (cur w) - (_next_row (cur w) + 1) + k) by lia.
      apply (@rows_left_some _ st
               (set_next_row (_next_row (cur w) + 1) (cur w)) (net w) k);
        [exact Hend | | exact Hup].
      unfold buffer_ok, buffer_invariant, buffer_len. cbn. rewrite Hrs.
      repeat split; try lia. exact Htr.
    + rewrite (fetchone_refill _ Hst Hsel Hend Hge).
      inversion Hup as [n r n' Hf Heod | n r n' k' Hf Heod Hcnt Hone Hall Hup'];
        subst; rewrite Hf; cbn; rewrite Heod.
      * exists None. eexists. split; [reflexivity|]. cbn.
        split; [exact Hst|]. left. repeat split. lia.
      * destruct (result_set r) as [|r0 rs0] eqn:Hrs; [cbn in Hcnt; lia|].
        exists (Some r0). eexists. split; [reflexivity|]. cbn.
        split; [exact Hst|]. right.
        pose proof (upcoming_nonneg Hup') as Hk'.
        split; [lia|]. exists r0. split; [reflexivity|].
        split; [now inversion Hall|].
        replace (_row_cached (cur w) - _next_row (cur w)
                 + (rows_fetched r + k') - 1)
          with (rows_fetched r - 1 + k') by lia.
        apply (@rows_left_some _ st
                 (set_next_row 1
                    (set_row_cached (rows_fetched r)
                       (set_end_data false
                          (set_result_set (Some (r0 :: rs0)) (cur w)))))
                 n' k'); [reflexivity | | exact Hup'].
        unfold buffer_ok, buffer_invariant, buffer_len. cbn.
        cbn in Hcnt.
        repeat split; try lia. exact Hall.
Qed.

(** After the sentinel the loop goes on, but every further [fetchone]
    returns at once: the world and the rows collected stay as they are. *)
Lemma fetch_loop_exhausted (cnt : nat) (res : list row) w st :
  _st (cur w) = Some st ->
  sql_stmt_type_ st = TYPE_SELECT ->
  _end_data (cur w) = true ->
  fetch_loop cnt res w = (Return res, w).
Proof.
  intros Hst Hsel Hend. induction cnt as [|cnt IH]; [reflexivity|].
  cbn [fetch_loop]. now rewrite (fetchone_end_data _ Hst Hsel Hend).
Qed.

(** The loop of [fetchmany] and the loop that stops at the sentinel agree,
    and collect as many rows as there are iterations or rows left. *)
Lemma fetch_loop_rows_left (cnt : nat) : forall (res : list row) w st (m : Z),
  _st (cur w) = Some st ->
  sql_stmt_type_ st = TYPE_SELECT ->
  rows_left st (cur w) (net w) m ->
  exists rows w',
    fetch_loop cnt res w = (Return rows, w') /\
    fetch_until_sentinel cnt res w = (Return rows, w') /\
    Z.of_nat (List.length rows)
    = Z.of_nat (List.length res) + Z.min (Z.of_nat cnt) m.
Proof.
  induction cnt as [|cnt IH]; intros res w st m Hst Hsel Hleft.
  - exists res, w. cbn. repeat split.
    assert (0 <= m).
    { destruct Hleft as [|k _ ((? & _) & _) Hup]; [lia|].
      pose proof (upcoming_nonneg Hup). lia. }
    lia.
  - destruct (fetchone_rows_left _ Hst Hsel Hleft)
      as (r & w' & Hf & Hst' & [(Hm & Hr & Hend') | (Hm & rw & Hr & Htr & Hleft')]).
    + subst r m. exists res, w'. cbn [fetch_loop fetch_until_sentinel].
      rewrite Hf. cbn [append_if_row].
      rewrite (fetch_loop_exhausted cnt res _ Hst' Hsel Hend').
      repeat split. lia.
    + subst r. destruct (IH (res ++ [rw]) w' st (m - 1) Hst' Hsel Hleft')
        as (rows & w'' & H1 & H2 & H3).
      exists rows, w''. cbn [fetch_loop fetch_until_sentinel].
      rewrite Hf. cbn [append_if_row]. rewrite Htr.
      split; [exact H1|]. split; [exact H2|].
      rewrite H3, length_app. cbn [List.length]. lia.
Qed.

(** C2 (as amended): on a row-producing statement with [m] rows left
    before end-of-data, [fetchmany(size)] returns; the count it works with
    is [size], or the cursor's [arraysize] when [size] is 0; it returns as
    many rows as the smaller of that count (none if negative) and [m], so
    for [size >= 1] exactly [min size m] rows; and although its loop calls
    [fetchone] for the whole count, its result and the world it leaves are
    those of the loop that stops the first time the sentinel is
    returned. *)
Theorem fetchmany_length (size : Z) w st (m : Z) :
  _st (cur w) = Some st ->
  sql_stmt_type_ st = TYPE_SELECT ->
  rows_left st (cur w) (net w) m ->
  let cnt := py_or size (arraysize (cur w)) in
  exists rows w',
    fetchmany size w = (Return rows, w') /\
    Z.of_nat (List.length rows) = Z.min (Z.max 0 cnt) m /\
    fetch_until_sentinel (Z.to_nat cnt) [] w = (Return rows, w') /\
    (1 <= size -> Z.of_nat (List.length rows) = Z.min size m).
Proof.
  intros Hst Hsel Hleft cnt.
  destruct (fetch_loop_rows_left (Z.to_nat cnt) [] _ Hst Hsel Hleft)
    as (rows & w' & H1 & H2 & H3).
  exists rows, w'. unfold fetchmany.
  rewrite Hst, (select_guard _ Hsel). fold cnt.
  split; [exact H1|]. cbn [List.length] in H3.
  split; [lia|]. split; [exact H2|].
  intros Hsize. subst cnt. unfold py_or in *.
  destruct (size =? 0) eqn:Hz; [apply Z.eqb_eq in Hz; lia|]. lia.
Qed.

End Properties.

(** * The scripted cursor: runs of the methods *)

(** ** C1: what a second [execute] leaves in the buffer *)

(** C1: a SELECT is executed, its first batch of three rows arrives and
    one row is read; a second SELECT is then executed on the same cursor.
    That [execute] returns and the end-of-data flag is false, but the
    buffer, the cached count and the read position are those of the first
    statement, and the next [fetchone] returns the second row of the old
    batch without a call to the transport. *)
Theorem execute_keeps_stale_rows :
  fst (@execute ScriptedAPI select_text None false one_read_world) = Return tt
  /\ _end_data (cur reexecuted_world) = false
  /\ _result_set (cur reexecuted_world) = _result_set (cur one_read_world)
  /\ _result_set (cur one_read_world) = Some (map row_of [10; 20; 30])
  /\ _row_cached (cur reexecuted_world) = 3
  /\ _next_row (cur reexecuted_world) = 1
  /\ fst (fetchone reexecuted_world) = Return (Some (row_of 20))
  /\ calls (snd (fetchone reexecuted_world)) = calls reexecuted_world
  /\ net (snd (fetchone reexecuted_world)) = net reexecuted_world.
Proof. vm_compute. repeat split. Qed.

(** ** C2: [fetchmany(0)] *)

(** Three rows are left on [selected_world]. *)
Lemma selected_rows_left :
  @rows_left ScriptedAPI 1 (cur selected_world) (net selected_world) 3.
Proof.
  change 3 with
    (_row_cached (cur selected_world) - _next_row (cur selected_world)
     + (rows_fetched (batch [10; 20; 30]) + 0)).
  apply (@rows_left_some ScriptedAPI).
  - reflexivity.
  - unfold buffer_ok, buffer_invariant, buffer_len. cbn.
    repeat split; discriminate.
  - apply (@upcoming_batch ScriptedAPI 1 (net selected_world)
             (batch [10; 20; 30])
             {| link_down := false; pending := [last_reply] |} 0).
    + reflexivity.
    + reflexivity.
    + reflexivity.
    + cbn. discriminate.
    + repeat constructor.
    + apply (@upcoming_end ScriptedAPI 1
               {| link_down := false; pending := [last_reply] |}
               last_reply {| link_down := false; pending := [] |});
        reflexivity.
Defined.

(** C2, the claim at [size = 0]: with three rows left and [arraysize] 1,
    [fetchmany(0)] returns one row, not [min 0 3 = 0] rows. *)
Lemma fetchmany_zero_returns_a_row :
  @rows_left ScriptedAPI 1 (cur selected_world) (net selected_world) 3
  /\ fst (fetchmany 0 selected_world) = Return [row_of 10]
  /\ Z.of_nat (List.length [row_of 10]) <> Z.min 0 3.
Proof.
  split; [exact selected_rows_left|]. split; [reflexivity|].
  cbn. discriminate.
Qed.

Lemma fetchmany_length_witness :
  exists rows w',
    fetchmany 2 selected_world = (Return rows, w')
    /\ Z.of_nat (List.length rows) = Z.min 2 3.
Proof.
  destruct (@fetchmany_length ScriptedAPI 2 selected_world 1 3
              eq_refl eq_refl selected_rows_left)
    as (rows & w' & H1 & _ & _ & H4).
  exists rows, w'. split; [exact H1|]. apply H4. discriminate.
Defined.

(** ** C3: [execute] on a closed cursor *)

(** C3, the claim at the empty text: on a cursor without a connection
    reference, [execute("")] returns [None] and raises nothing. *)
Lemma execute_empty_text_returns :
  _connection (cur closed_world) = None
  /\ @execute ScriptedAPI (OpStr []) None false closed_world = (Return tt, closed_world)
  /\ forall msg,
       fst (@execute ScriptedAPI (OpStr []) None false closed_world)
       <> Raise (ProgrammingError msg).
Proof.
  split; [reflexivity|]. split; [reflexivity|].
  intros msg H. discriminate H.
Qed.

Lemma execute_not_connected_witness :
  @execute ScriptedAPI select_text (Some [VInt 5]) false closed_world
  = (Raise (ProgrammingError "Cursor is not connected"), closed_world).
Proof.
  apply (@execute_not_connected ScriptedAPI select_text (Some [VInt 5]) false
           closed_world); reflexivity.
Defined.

(** ** C4 *)

Lemma fetchone_exhausted_witness :
  fetchone_times 3 exhausted_world
  = (repeat (Return None) 3%nat, exhausted_world).
Proof.
  apply (proj2 (@fetchone_exhausted ScriptedAPI exhausted_world eq_refl)
           1 eq_refl eq_refl 3%nat).
Defined.

(** ** C5 *)

Lemma fetchone_cache_protocol_witness :
  fetchone one_read_world
  = (subscript (_result_set (cur one_read_world)) (_next_row (cur one_read_world)),
     with_cur (set_next_row (_next_row (cur one_read_world) + 1)
                 (cur one_read_world)) one_read_world).
Proof.
  apply (proj1 (@fetchone_cache_protocol ScriptedAPI one_read_world 1
                  eq_refl eq_refl eq_refl)).
  reflexivity.
Defined.

(** ** C6 *)

Lemma fetch_without_result_set_witness :
  fetchone inserted_world
  = (Raise (InternalError "No result set available."), inserted_world).
Proof.
  apply (proj1 (@fetch_without_result_set ScriptedAPI inserted_world 2
                  eq_refl ltac:(discriminate))).
Defined.

(** ** C7 *)

(** C7, the claim at a text that does not encode: the one-character text
    U+D800 is not empty and the cursor is connected, yet [execute] with
    parameters raises ProgrammingError with the codec's message, builds
    no statement and calls nothing. *)
Lemma execute_surrogate_text :
  op_truthy (OpStr [55296]) = true
  /\ _connection (cur (script_world [])) = Some tt
  /\ @execute ScriptedAPI (OpStr [55296]) (Some [VInt 5]) false (script_world [])
     = (Raise
          (ProgrammingError
             "'utf-8' codec can't encode character '\ud800' in position 0: surrogates not allowed"),
        script_world [])
  /\ _st (cur (snd (@execute ScriptedAPI (OpStr [55296]) (Some [VInt 5]) false
                      (script_world [])))) = None
  /\ calls (snd (@execute ScriptedAPI (OpStr [55296]) (Some [VInt 5]) false
                   (script_world []))) = [].
Proof. repeat split. Qed.

Lemma execute_mode_selection_witness :
  _execute_type
    (cur (snd (@execute ScriptedAPI select_text (Some [VInt 5]) false (script_world []))))
  = SRVR_API_SQLEXECUTE2
  /\ calls (snd (@execute ScriptedAPI select_text (Some [VInt 5]) false (script_world [])))
     = [CallExecuteAll (0 : @Stmt ScriptedAPI) [115; 101; 108; 101; 99; 116]
          SRVR_API_SQLEXECUTE2 (Some [VInt 5])].
Proof.
  destruct (@execute_mode_selection ScriptedAPI select_text
              [115; 101; 108; 101; 99; 116] (Some [VInt 5]) false
              (script_world []) tt eq_refl eq_refl eq_refl)
    as (_ & H1 & H2 & _).
  split; [exact H1 | exact H2].
Defined.

(** ** C8 *)

Lemma close_idempotent_witness :
  close closed_world = (Return false, closed_world).
Proof.
  destruct (@close_idempotent ScriptedAPI closed_world) as (_ & _ & H & _).
  apply H. reflexivity.
Defined.

(** ** C9 *)

(** C9, the claim at an [execute] that fails in the transport: on a fresh
    cursor whose link is down, [execute] raises the transport's error, and
    the last-executed text and the active statement, both [None] before,
    are set after the failed call. *)
Lemma execute_failure_writes_statement :
  fst (@execute ScriptedAPI select_text None false down_world) = Raise (TransportError 1)
  /\ _executed (cur down_world) = None
  /\ _executed (cur (snd (@execute ScriptedAPI select_text None false down_world)))
     = Some [115; 101; 108; 101; 99; 116]
  /\ _st (cur down_world) = None
  /\ _st (cur (snd (@execute ScriptedAPI select_text None false down_world)))
     = Some (0 : @Stmt ScriptedAPI).
Proof. repeat split. Qed.

Lemma failed_call_state_witness :
  _result_set (cur (snd (@execute ScriptedAPI select_text None false down_world)))
  = _result_set (cur down_world)
  /\ _end_data (cur (snd (@execute ScriptedAPI select_text None false down_world)))
     = _end_data (cur down_world).
Proof.
  destruct (proj2 (@failed_call_state ScriptedAPI down_world)
              select_text None false (TransportError 1) eq_refl)
    as (H1 & _ & _ & H4 & _).
  split; [exact H1 | exact H4].
Defined.

(** ** C10 *)

Lemma fetchone_refill_needs_a_row_witness :
  fst (fetchone empty_batch_world) = Raise IndexError
  /\ _row_cached (cur (snd (fetchone empty_batch_world)))
     < _next_row (cur (snd (fetchone empty_batch_world))).
Proof.
  destruct (@fetchone_refill_needs_a_row ScriptedAPI empty_batch_world 1
              (batch []) {| link_down := false; pending := [] |}
              eq_refl eq_refl eq_refl ltac:(discriminate) eq_refl eq_refl)
    as (_ & _ & _ & _ & H5 & _ & H7).
  split; [apply H5; reflexivity | apply H7; reflexivity].
Defined.

(** * More properties: rows in order, iteration, sequences of calls *)

Section MoreProperties.

Context {api : StatementAPI}.

Implicit Types (w : World) (c : TrafCursor) (st : Stmt).

(** ** Lists *)

Lemma skipn_nth_cons (A : Type) (l : list A) (i : nat) (x : A) :
  nth_error l i = Some x -> skipn i l = x :: skipn (S i) l.
Proof.
  revert i. induction l as [|a l IH]; intros [|i] H; cbn in *;
    try discriminate.
  - now inversion H.
  - now apply IH.
Qed.

Lemma nth_error_firstn_lt (A : Type) (l : list A) (n i : nat) :
  (i < n)%nat -> nth_error (firstn n l) i = nth_error l i.
Proof.
  revert n i. induction l as [|a l IH]; intros [|n] [|i] H; cbn;
    try reflexivity; try lia.
  apply IH. lia.
Qed.

Lemma repeat_add (A : Type) (x : A) (a b : nat) :
  repeat x (a + b) = repeat x a ++ repeat x b.
Proof. induction a as [|a IH]; cbn; [reflexivity | now rewrite IH]. Qed.

(** ** One [fetchone] in front of the rows ahead *)

(** With the batch used up, no cached row is unread. *)
Lemma unread_used_up c :
  _row_cached c <= _next_row c -> unread c = [].
Proof.
  intros Hge. unfold unread. destruct (_result_set c) as [rs|]; [|reflexivity].
  apply skipn_all2. rewrite length_firstn. lia.
Qed.

(** [fetchone] returns the first row ahead and leaves the others ahead;
    with no row ahead it returns the sentinel and the flag is set.  [j]
    counts the transport fetches it made, [k'] those still to come. *)
Lemma fetchone_step_ahead w st (rows : list row) (k : nat) :
  _st (cur w) = Some st ->
  sql_stmt_type_ st = TYPE_SELECT ->
  rows_ahead st (cur w) (net w) rows k ->
  exists w' j k',
    k = (j + k')%nat /\
    calls w' = calls w ++ repeat (CallFetch st) j /\
    _st (cur w') = Some st /\
    match rows with
    | [] => fetchone w = (Return None, w') /\ _end_data (cur w') = true /\
            k' = 0%nat
    | r :: rest => fetchone w = (Return (Some r), w') /\
                   rows_ahead st (cur w') (net w') rest k'
    end.
Proof.
  intros Hst Hsel Hahead.
  destruct Hahead as [Hend | rows k Hend [[Hle Hlen] Hpos] Hup].
  - exists w, 0%nat, 0%nat. cbn. rewrite app_nil_r.
    rewrite (fetchone_end_data _ Hst Hsel Hend). repeat split; assumption.
  - destruct (Z.lt_ge_cases (_next_row (cur w)) (_row_cached (cur w)))
      as [Hlt | Hge].
    + (* served from the cache *)
      unfold buffer_len in Hlen.
      destruct (_result_set (cur w)) as [rs|] eqn:Hrs; [|lia].
      destruct (@py_getitem_in_range _ rs (_next_row (cur w)))
        as (r & Hn & Hg); [lia|].
      assert (Hun : unread (cur w)
                    = r :: unread (set_next_row (_next_row (cur w) + 1) (cur w))).
      { unfold unread. cbn. rewrite Hrs.
        replace (Z.to_nat (_next_row (cur w) + 1))
          with (S (Z.to_nat (_next_row (cur w)))) by lia.
        apply skipn_nth_cons. rewrite nth_error_firstn_lt by lia. exact Hn. }
      rewrite Hun. cbn [app].
      exists (with_cur (set_next_row (_next_row (cur w) + 1) (cur w)) w),
        0%nat, k.
      cbn. rewrite app_nil_r. repeat split; try assumption.
      * rewrite (fetchone_cached _ Hst Hsel Hend Hlt), Hrs. cbn. now rewrite Hg.
      * apply rows_ahead_some; [exact Hend | | exact Hup].
        unfold buffer_ready, buffer_invariant, buffer_len. cbn. rewrite Hrs.
        repeat split; lia.
    + (* the batch is used up: one transport fetch *)
      rewrite (unread_used_up _ Hge). cbn [app].
      rewrite (fetchone_refill _ Hst Hsel Hend Hge).
      inversion Hup as [n r n' Hf Heod | n r n' rows' k' Hf Heod Hcnt Hne Hup'];
        subst; rewrite Hf; cbn; rewrite Heod.
      * exists (with_cur
                  (set_end_data true
                     (set_result_set (Some (result_set r)) (cur w)))
                  (with_call (CallFetch st) n' w)), 1%nat, 0%nat.
        cbn. repeat split; assumption.
      * exists (with_cur
                  (set_next_row 1
                     (set_row_cached (rows_fetched r)
                        (set_end_data false
                           (set_result_set (Some (result_set r)) (cur w)))))
                  (with_call (CallFetch st) n' w)), 1%nat, k'.
        destruct (result_set r) as [|r0 rs0] eqn:Hrs; [congruence|].
        cbn. repeat split; try assumption.
        assert (Hun : rs0 = unread
                  (set_next_row 1
                     (set_row_cached (rows_fetched r)
                        (set_end_data false
                           (set_result_set (Some (r0 :: rs0)) (cur w)))))).
        { unfold unread. cbn [_result_set _next_row _row_cached set_next_row
                              set_row_cached set_end_data set_result_set].
          rewrite Hcnt, Nat2Z.id, firstn_all. reflexivity. }
        assert (Hnew : rows_ahead st
                  (set_next_row 1
                     (set_row_cached (rows_fetched r)
                        (set_end_data false
                           (set_result_set (Some (r0 :: rs0)) (cur w)))))
                  n' (unread
                        (set_next_row 1
                           (set_row_cached (rows_fetched r)
                              (set_end_data false
                                 (set_result_set (Some (r0 :: rs0)) (cur w)))))
                      ++ rows') k').
        { apply rows_ahead_some; [reflexivity | | exact Hup'].
          unfold buffer_ready, buffer_invariant, buffer_len. cbn.
          cbn in Hcnt. repeat split; lia. }
        rewrite <- Hun in Hnew. exact Hnew.
Qed.

(** ** X1: repeated [fetchone] returns the rows in order *)

(** X1: on a row-producing statement with the rows [rows] ahead, [n]
    calls of [fetchone] in a row return the first [n] of these rows, in
    order, each once, and then the sentinel [None] for every call that
    is left. *)
Theorem fetchone_times_in_order (n : nat) w st (rows : list row) (k : nat) :
  _st (cur w) = Some st ->
  sql_stmt_type_ st = TYPE_SELECT ->
  rows_ahead st (cur w) (net w) rows k ->
  fst (fetchone_times n w)
  = map (fun r => Return (Some r)) (firstn n rows)
    ++ repeat (Return None) (n - List.length rows).
Proof.
  revert w rows k. induction n as [|n IH]; intros w rows k Hst Hsel Hahead;
    [reflexivity|].
  destruct (@fetchone_step_ahead _ _ _ _ Hst Hsel Hahead)
    as (w' & j & k' & _ & _ & Hst' & Hstep).
  cbn [fetchone_times]. destruct rows as [|r rest].
  - destruct Hstep as (Hf & Hend' & _). rewrite Hf.
    pose proof (IH w' [] 0%nat Hst' Hsel (@rows_ahead_none _ st _ _ Hend')) as H.
    destruct (fetchone_times n w') as [rs w2]. cbn in *. rewrite H.
    rewrite firstn_nil, Nat.sub_0_r. reflexivity.
  - destruct Hstep as (Hf & Hahead'). rewrite Hf.
    pose proof (IH w' rest k' Hst' Hsel Hahead') as H.
    destruct (fetchone_times n w') as [rs w2]. cbn in *. now rewrite H.
Qed.

(** ** X2: [fetchmany] returns the next rows and leaves the others *)

Lemma fetch_loop_ahead (cnt : nat) :
  forall (res : list row) w st (rows : list row) (k : nat),
  _st (cur w) = Some st ->
  sql_stmt_type_ st = TYPE_SELECT ->
  rows_ahead st (cur w) (net w) rows k ->
  rows_truthy rows ->
  exists w' j k',
    fetch_loop cnt res w = (Return (res ++ firstn cnt rows), w') /\
    k = (j + k')%nat /\
    calls w' = calls w ++ repeat (CallFetch st) j /\
    rows_ahead st (cur w') (net w') (skipn cnt rows) k'.
Proof.
  induction cnt as [|cnt IH]; intros res w st rows k Hst Hsel Hahead Htr.
  - exists w, 0%nat, k. cbn. rewrite !app_nil_r. repeat split. exact Hahead.
  - destruct (@fetchone_step_ahead _ _ _ _ Hst Hsel Hahead)
      as (w' & j & k' & Hk & Hcalls & Hst' & Hstep).
    cbn [fetch_loop]. destruct rows as [|r rest].
    + destruct Hstep as (Hf & Hend' & Hk'). rewrite Hf. cbn [append_if_row].
      rewrite (fetch_loop_exhausted cnt res _ Hst' Hsel Hend').
      exists w', j, k'. cbn. rewrite app_nil_r.
      repeat split; try assumption. subst k'.
      now apply rows_ahead_none.
    + destruct Hstep as (Hf & Hahead'). rewrite Hf. cbn [append_if_row].
      inversion Htr as [|? ? Hr Hrest]; subst. rewrite Hr.
      destruct (IH (res ++ [r]) w' st rest k' Hst' Hsel Hahead' Hrest)
        as (w'' & j' & k'' & Hloop & Hk' & Hcalls' & Hleft).
      exists w'', (j + j')%nat, k''. rewrite Hloop. cbn.
      rewrite <- app_assoc. cbn. repeat split; try assumption.
      * lia.
      * now rewrite Hcalls', Hcalls, repeat_add, app_assoc.
Qed.

(** X2: on a row-producing statement with the rows [rows] ahead, all
    with at least one column, [fetchmany(size)] returns exactly the first
    [cnt] of them in order ([cnt] being [size], or [arraysize] when [size]
    is 0, and nothing when that is negative); the rows after these are
    still ahead afterwards, and the transport fetches it made and those
    still to come add up to the fetches the rows ahead take. *)
Theorem fetchmany_rows_in_order (size : Z) w st (rows : list row) (k : nat) :
  _st (cur w) = Some st ->
  sql_stmt_type_ st = TYPE_SELECT ->
  rows_ahead st (cur w) (net w) rows k ->
  rows_truthy rows ->
  let cnt := Z.to_nat (py_or size (arraysize (cur w))) in
  exists w' j k',
    fetchmany size w = (Return (firstn cnt rows), w') /\
    k = (j + k')%nat /\
    calls w' = calls w ++ repeat (CallFetch st) j /\
    rows_ahead st (cur w') (net w') (skipn cnt rows) k'.
Proof.
  intros Hst Hsel Hahead Htr cnt.
  destruct (@fetch_loop_ahead cnt [] w st rows k Hst Hsel Hahead Htr)
    as (w' & j & k' & Hloop & Hk & Hcalls & Hleft).
  exists w', j, k'. unfold fetchmany.
  rewrite Hst, (select_guard _ Hsel). fold cnt. rewrite Hloop.
  repeat split; assumption.
Qed.

(** ** X3: iterating over the cursor *)

Lemma iterate_ahead (rows : list row) :
  forall (fuel : nat) (acc : list row) w st (k : nat),
  _st (cur w) = Some st ->
  sql_stmt_type_ st = TYPE_SELECT ->
  rows_ahead st (cur w) (net w) rows k ->
  (List.length rows < fuel)%nat ->
  exists w',
    iterate fuel acc w = (Some (Return (acc ++ rows)), w') /\
    calls w' = calls w ++ repeat (CallFetch st) k /\
    _st (cur w') = Some st /\
    _end_data (cur w') = true.
Proof.
  induction rows as [|r rest IH]; intros fuel acc w st k Hst Hsel Hahead Hfuel;
    (destruct fuel as [|fuel]; [cbn in Hfuel; lia|]);
    destruct (@fetchone_step_ahead _ _ _ _ Hst Hsel Hahead)
      as (w' & j & k' & Hk & Hcalls & Hst' & Hstep); cbn [iterate].
  - destruct Hstep as (Hf & Hend' & Hk'). rewrite Hf. exists w'.
    rewrite app_nil_r. subst k k'. rewrite Nat.add_0_r.
    repeat split; assumption.
  - destruct Hstep as (Hf & Hahead'). rewrite Hf.
    destruct (IH fuel (acc ++ [r]) w' st k' Hst' Hsel Hahead')
      as (w'' & Hit & Hcalls' & Hst'' & Hend''); [cbn in Hfuel; lia|].
    exists w''. rewrite Hit, <- app_assoc. cbn.
    repeat split; try assumption.
    subst k. now rewrite Hcalls', Hcalls, repeat_add, app_assoc.
Qed.

(** X3: on a row-producing statement with the rows [rows] ahead, taking
    [k] transport fetches, a loop over the cursor ([__iter__]) that may
    make more than [len rows] calls of [next()] ends, having yielded
    exactly [rows] in order and made exactly [k] transport fetches; the
    cursor is then at end-of-data and a further [fetchone] returns [None]
    without touching the world. *)
Theorem iterate_yields_all_rows (fuel : nat) w st (rows : list row) (k : nat) :
  _st (cur w) = Some st ->
  sql_stmt_type_ st = TYPE_SELECT ->
  rows_ahead st (cur w) (net w) rows k ->
  (List.length rows < fuel)%nat ->
  exists w',
    iterate fuel [] w = (Some (Return rows), w') /\
    calls w' = calls w ++ repeat (CallFetch st) k /\
    _end_data (cur w') = true /\
    fetchone w' = (Return None, w').
Proof.
  intros Hst Hsel Hahead Hfuel.
  destruct (@iterate_ahead rows fuel [] w st k Hst Hsel Hahead Hfuel)
    as (w' & Hit & Hcalls & Hst' & Hend').
  exists w'. repeat split; try assumption.
  exact (fetchone_end_data _ Hst' Hsel Hend').
Qed.

(** ** X4: two [fetchmany] in a row *)

(** The rows collected so far only travel along with the loop. *)
Lemma fetch_loop_acc (cnt : nat) : forall (res : list row) w,
  fetch_loop cnt res w =
    match fetch_loop cnt [] w with
    | (Return ext, w') => (Return (res ++ ext), w')
    | (Raise e, w') => (Raise e, w')
    end.
Proof.
  induction cnt as [|cnt IH]; intros res w; cbn [fetch_loop].
  - now rewrite app_nil_r.
  - destruct (fetchone w) as [[r|e] w1]; [|reflexivity].
    rewrite (IH (append_if_row res r)), (IH (append_if_row [] r)).
    destruct (fetch_loop cnt [] w1) as [[ext|e] w2]; [|reflexivity].
    destruct r as [rw|]; cbn; [|reflexivity].
    destruct (truthy rw); cbn; [|reflexivity]. now rewrite <- app_assoc.
Qed.

(** A loop of [a + b] iterations is a loop of [a] and then one of [b]. *)
Lemma fetch_loop_add (a b : nat) : forall (res : list row) w,
  fetch_loop (a + b) res w =
    match fetch_loop a res w with
    | (Return r1, w1) => fetch_loop b r1 w1
    | (Raise e, w1) => (Raise e, w1)
    end.
Proof.
  induction a as [|a IH]; intros res w; cbn [fetch_loop Nat.add];
    [reflexivity|].
  destruct (fetchone w) as [[r|e] w1]; [apply IH | reflexivity].
Qed.

(** [fetchmany] returns only in front of a row-producing statement. *)
Lemma fetchmany_returns size w (rows : list row) w' :
  fetchmany size w = (Return rows, w') ->
  exists st,
    _st (cur w) = Some st /\ sql_stmt_type_ st = TYPE_SELECT /\
    fetch_loop (Z.to_nat (py_or size (arraysize (cur w)))) [] w
    = (Return rows, w').
Proof.
  unfold fetchmany. destruct (_st (cur w)) as [st|]; [|discriminate].
  destruct (sql_stmt_type_ st =? TYPE_SELECT) eqn:Hty; cbn; [|discriminate].
  intros H. exists st. apply Z.eqb_eq in Hty. auto.
Qed.

(** X4: for [a >= 1] and [b >= 1], whatever the transport answers: if
    [fetchmany(a)] returns [r1] and [fetchmany(b)] right after it returns
    [r2], then [fetchmany(a + b)] from the same start returns [r1 ++ r2]
    and leaves the same world; reading in two steps loses and repeats no
    row. *)
Theorem fetchmany_split (a b : Z) w (r1 r2 : list row) w1 w2 :
  1 <= a -> 1 <= b ->
  fetchmany a w = (Return r1, w1) ->
  fetchmany b w1 = (Return r2, w2) ->
  fetchmany (a + b) w = (Return (r1 ++ r2), w2).
Proof.
  intros Ha Hb H1 H2.
  destruct (fetchmany_returns _ _ H1) as (st & Hst & Hsel & L1).
  destruct (fetchmany_returns _ _ H2) as (st2 & _ & _ & L2).
  unfold py_or in L1, L2.
  replace (a =? 0) with false in L1 by (symmetry; apply Z.eqb_neq; lia).
  replace (b =? 0) with false in L2 by (symmetry; apply Z.eqb_neq; lia).
  unfold fetchmany, py_or. rewrite Hst, (select_guard _ Hsel).
  replace (a + b =? 0) with false by (symmetry; apply Z.eqb_neq; lia).
  rewrite Z2Nat.inj_add by lia.
  rewrite fetch_loop_add, L1, fetch_loop_acc, L2. reflexivity.
Qed.

(** ** X5: bounds on [fetchmany] that need no assumption *)

(** One [fetchone] makes at most one transport fetch, no other call, and
    keeps the statement. *)
Lemma fetchone_calls w st :
  _st (cur w) = Some st ->
  exists j, (j <= 1)%nat /\
    calls (snd (fetchone w)) = calls w ++ repeat (CallFetch st) j /\
    _st (cur (snd (fetchone w))) = Some st.
Proof.
  intros Hst. unfold fetchone. rewrite Hst.
  destruct (negb (sql_stmt_type_ st =? TYPE_SELECT));
    [exists 0%nat; cbn; rewrite app_nil_r; auto|].
  destruct (_end_data (cur w));
    [exists 0%nat; cbn; rewrite app_nil_r; auto|].
  destruct (_next_row (cur w) <? _row_cached (cur w));
    [exists 0%nat; cbn; rewrite app_nil_r; auto|].
  destruct (st_fetch st (net w)) as [[e|rep] n']; cbn;
    [exists 1%nat; cbn; auto|].
  destruct (end_of_data rep); exists 1%nat; cbn; auto.
Qed.

Lemma append_if_row_truthy (res : list row) (r : option row) :
  rows_truthy res -> rows_truthy (append_if_row res r).
Proof.
  intros H. destruct r as [rw|]; cbn; [|exact H].
  destruct (truthy rw) eqn:Ht; [|exact H].
  apply Forall_app. split; [exact H|]. now constructor.
Qed.

Lemma append_if_row_length (res : list row) (r : option row) :
  (List.length (append_if_row res r) <= S (List.length res))%nat.
Proof.
  destruct r as [rw|]; cbn; [|lia].
  destruct (truthy rw); [rewrite length_app; cbn|]; lia.
Qed.

Lemma fetch_loop_bounds (cnt : nat) : forall (res : list row) w st,
  _st (cur w) = Some st ->
  rows_truthy res ->
  exists j, (j <= cnt)%nat /\
    calls (snd (fetch_loop cnt res w)) = calls w ++ repeat (CallFetch st) j /\
    forall rows, fst (fetch_loop cnt res w) = Return rows ->
      (List.length rows <= List.length res + cnt)%nat /\ rows_truthy rows.
Proof.
  induction cnt as [|cnt IH]; intros res w st Hst Hres; cbn [fetch_loop].
  - exists 0%nat. cbn. rewrite app_nil_r. split; [lia|].
    split; [reflexivity|]. intros rows [= <-]. split; [lia | exact Hres].
  - destruct (fetchone_calls _ Hst) as (j1 & Hj1 & Hc1 & Hst1).
    destruct (fetchone w) as [[r|e] w1]; cbn in *.
    + destruct (IH (append_if_row res r) w1 st Hst1
                  (append_if_row_truthy r Hres)) as (j2 & Hj2 & Hc2 & Hrows).
      exists (j1 + j2)%nat. split; [lia|]. split.
      * now rewrite Hc2, Hc1, repeat_add, app_assoc.
      * intros rows Hr. destruct (Hrows rows Hr) as [Hl Ht].
        pose proof (append_if_row_length res r). split; [lia | exact Ht].
    + exists j1. split; [lia|]. split; [exact Hc1|]. intros rows H.
      discriminate H.
Qed.

(** X5: whatever the transport answers and whatever the state of the
    buffer, [fetchmany(size)] on a cursor with a statement makes at most
    [cnt] transport fetches and no other call ([cnt] as in X2), and when
    it returns, it returns at most [cnt] rows, none of them an empty
    tuple. *)
Theorem fetchmany_bounds (size : Z) w st :
  _st (cur w) = Some st ->
  let cnt := Z.to_nat (py_or size (arraysize (cur w))) in
  exists j, (j <= cnt)%nat /\
    calls (snd (fetchmany size w)) = calls w ++ repeat (CallFetch st) j /\
    forall rows, fst (fetchmany size w) = Return rows ->
      (List.length rows <= cnt)%nat /\ rows_truthy rows.
Proof.
  intros Hst cnt. unfold fetchmany. rewrite Hst.
  destruct (negb (sql_stmt_type_ st =? TYPE_SELECT)).
  - exists 0%nat. cbn. rewrite app_nil_r. split; [lia|]. split; [reflexivity|].
    intros rows H. discriminate H.
  - fold cnt.
    destruct (@fetch_loop_bounds cnt [] w st Hst (Forall_nil _))
      as (j & Hj & Hc & Hrows).
    exists j. split; [exact Hj|]. split; [exact Hc|]. exact Hrows.
Qed.

(** ** X6: what the fetch methods never write *)

Lemma same_binding_refl c : same_binding c c.
Proof. repeat split. Qed.

Lemma same_binding_trans c1 c2 c3 :
  same_binding c1 c2 -> same_binding c2 c3 -> same_binding c1 c3.
Proof.
  intros (A1 & A2 & A3 & A4 & A5) (B1 & B2 & B3 & B4 & B5).
  repeat split; congruence.
Qed.

Lemma fetchone_binding w : same_binding (cur w) (cur (snd (fetchone w))).
Proof.
  unfold fetchone. destruct (_st (cur w)) as [st|]; [|apply same_binding_refl].
  destruct (negb (sql_stmt_type_ st =? TYPE_SELECT));
    [apply same_binding_refl|].
  destruct (_end_data (cur w)); [apply same_binding_refl|].
  destruct (_next_row (cur w) <? _row_cached (cur w)); [repeat split|].
  destruct (st_fetch st (net w)) as [[e|rep] n']; cbn; [repeat split|].
  destruct (end_of_data rep); repeat split.
Qed.

Lemma fetch_loop_binding (cnt : nat) : forall (res : list row) w,
  same_binding (cur w) (cur (snd (fetch_loop cnt res w))).
Proof.
  induction cnt as [|cnt IH]; intros res w; cbn [fetch_loop];
    [apply same_binding_refl|].
  pose proof (fetchone_binding w) as H1.
  destruct (fetchone w) as [[r|e] w1]; cbn in *; [|exact H1].
  exact (same_binding_trans H1 (IH _ w1)).
Qed.

Lemma iterate_binding (fuel : nat) : forall (acc : list row) w,
  same_binding (cur w) (cur (snd (iterate fuel acc w))).
Proof.
  induction fuel as [|fuel IH]; intros acc w; cbn [iterate];
    [apply same_binding_refl|].
  pose proof (fetchone_binding w) as H1.
  destruct (fetchone w) as [[[r|]|e] w1]; cbn in *; try exact H1.
  exact (same_binding_trans H1 (IH _ w1)).
Qed.

Lemma fetchmany_binding (size : Z) w :
  same_binding (cur w) (cur (snd (fetchmany size w))).
Proof.
  unfold fetchmany. destruct (_st (cur w)) as [st|]; [|apply same_binding_refl].
  destruct (negb (sql_stmt_type_ st =? TYPE_SELECT));
    [apply same_binding_refl | apply fetch_loop_binding].
Qed.

(** X6: [fetchone], [fetchmany] and a loop over the cursor never write
    the connection reference, the active statement, the execute-mode tag,
    the last-executed text or the array size, whatever their outcome. *)
Theorem fetch_keeps_binding w (size : Z) (fuel : nat) :
  same_binding (cur w) (cur (snd (fetchone w)))
  /\ same_binding (cur w) (cur (snd (fetchmany size w)))
  /\ same_binding (cur w) (cur (snd (iterate fuel [] w))).
Proof.
  split; [apply fetchone_binding|].
  split; [apply fetchmany_binding | apply iterate_binding].
Qed.

(** ** X7: [close] does not stop the fetch methods *)

Lemma close_world w :
  snd (close w) = with_cur (set_connection None (cur w)) w.
Proof.
  unfold close. destruct (_connection (cur w)) eqn:Hc; cbn; [reflexivity|].
  now rewrite (set_connection_absent _ Hc), with_cur_cur.
Qed.

Lemma fetchone_after_close w :
  fetchone (snd (close w))
  = (fst (fetchone w), snd (close (snd (fetchone w)))).
Proof.
  rewrite !close_world. unfold fetchone. cbn.
  destruct (_st (cur w)) as [st|]; [|reflexivity].
  destruct (negb (sql_stmt_type_ st =? TYPE_SELECT)); [reflexivity|].
  destruct (_end_data (cur w)); [reflexivity|].
  destruct (_next_row (cur w) <? _row_cached (cur w)); [reflexivity|].
  destruct (st_fetch st (net w)) as [[e|rep] n']; cbn; [reflexivity|].
  destruct (end_of_data rep); reflexivity.
Qed.

Lemma fetch_loop_after_close (cnt : nat) : forall (res : list row) w,
  fetch_loop cnt res (snd (close w))
  = (fst (fetch_loop cnt res w), snd (close (snd (fetch_loop cnt res w)))).
Proof.
  induction cnt as [|cnt IH]; intros res w; cbn [fetch_loop]; [reflexivity|].
  rewrite fetchone_after_close.
  destruct (fetchone w) as [[r|e] w1]; cbn [fst snd]; [apply IH | reflexivity].
Qed.

(** X7: [close] only drops the connection reference; it does not end the
    result set.  [fetchone] and [fetchmany] on a closed cursor answer what
    they would have answered before the [close], fetch from the transport
    as they would have, and leave the world that a [close] after them
    would have left. *)
Theorem fetch_after_close w (size : Z) :
  fetchone (snd (close w))
  = (fst (fetchone w), snd (close (snd (fetchone w))))
  /\ fetchmany size (snd (close w))
     = (fst (fetchmany size w), snd (close (snd (fetchmany size w)))).
Proof.
  split; [apply fetchone_after_close|].
  assert (Hst : _st (cur (snd (close w))) = _st (cur w))
    by (rewrite close_world; reflexivity).
  assert (Har : arraysize (cur (snd (close w))) = arraysize (cur w))
    by (rewrite close_world; reflexivity).
  unfold fetchmany. rewrite Hst, Har.
  destruct (_st (cur w)) as [st|]; [|reflexivity].
  destruct (negb (sql_stmt_type_ st =? TYPE_SELECT)); [reflexivity|].
  apply fetch_loop_after_close.
Qed.

(** ** Sequences of calls *)

Lemma run_calls_app (ms1 ms2 : list method_call) w :
  run_calls (ms1 ++ ms2) w = run_calls ms2 (run_calls ms1 w).
Proof. unfold run_calls. apply fold_left_app. Qed.

(** A property of the cursor that every method keeps holds after every
    sequence of calls. *)
Lemma run_calls_keep (P : TrafCursor -> Prop) :
  (forall m w, P (cur w) -> P (cur (run_call m w))) ->
  forall ms w, P (cur w) -> P (cur (run_calls ms w)).
Proof.
  intros Hstep ms. induction ms as [|m ms IH]; intros w Hw; [exact Hw|].
  cbn. apply IH, Hstep, Hw.
Qed.

(** What [execute] leaves of the cursor, case by case. *)
Lemma execute_cases (o : operation) (params : option Params) (multi : bool) w :
  snd (execute o params multi w) = w \/
  exists b st' n' k err,
    encode_operation o = inr b /\
    fst (execute o params multi w)
    = match err with Some e => Raise e | None => Return tt end /\
    snd (execute o params multi w)
    = with_cur
        (set_end_data
           (match err with Some _ => _end_data (cur w) | None => false end)
           (set_st (Some st')
              (set_execute_type
                 (match params with
                  | Some _ => SRVR_API_SQLEXECUTE2
                  | None => SRVR_API_SQLEXECDIRECT
                  end)
                 (set_executed (Some b) (cur w)))))
        (with_call k n' w).
Proof.
  unfold execute.
  destruct (op_truthy o); cbn; [|now left].
  destruct (_connection (cur w)) as [conn|]; [|now left].
  destruct (encode_operation o) as [msg|b]; [now left|]. right.
  destruct params as [p|]; cbn.
  - destruct (st_execute_all _ _ _ _ _) as [[[e|] st'] n'];
      exists b, st', n',
        (CallExecuteAll (PreparedStatement conn) b SRVR_API_SQLEXECUTE2
           (Some p)); [exists (Some e) | exists None]; cbn; repeat split.
  - destruct (st_execute _ _ _ _) as [[[e|] st'] n'];
      exists b, st', n',
        (CallExecute (Statement conn) b SRVR_API_SQLEXECDIRECT);
      [exists (Some e) | exists None]; cbn; repeat split.
Qed.

(** ** The attributes stay consistent *)

Lemma new_cursor_consistent (connection : option Conn) :
  attributes_consistent (new_cursor connection).
Proof.
  unfold attributes_consistent, used_up_at_end, statement_iff_executed. cbn.
  repeat split; auto; lia.
Qed.

Lemma fetchone_consistent w :
  attributes_consistent (cur w) ->
  attributes_consistent (cur (snd (fetchone w))).
Proof.
  intros H. pose proof H as (Hpos & Hend & Hiff).
  unfold fetchone. destruct (_st (cur w)) as [st|] eqn:Hst; [|exact H].
  destruct (negb (sql_stmt_type_ st =? TYPE_SELECT)); [exact H|].
  destruct (_end_data (cur w)) eqn:He; [exact H|]. clear H.
  unfold attributes_consistent, used_up_at_end, statement_iff_executed in *.
  assert (Hcase : _next_row (cur w) < _row_cached (cur w) \/
                  _row_cached (cur w) <= _next_row (cur w)) by lia.
  destruct Hcase as [Hlt | Hge].
  - apply Z.ltb_lt in Hlt. rewrite Hlt. cbn.
    split; [lia|]. split; [intros Hx; congruence | exact Hiff].
  - assert (Hlt : (_next_row (cur w) <? _row_cached (cur w)) = false)
      by (apply Z.ltb_ge; lia).
    rewrite Hlt.
    destruct (st_fetch st (net w)) as [[e|rep] n']; cbn.
    + split; [lia|]. split; [intros Hx; congruence | exact Hiff].
    + destruct (end_of_data rep); cbn.
      * split; [lia|]. split; [intros _; lia | exact Hiff].
      * split; [lia|]. split; [intros Hx; discriminate Hx | exact Hiff].
Qed.

Lemma fetch_loop_consistent (cnt : nat) : forall (res : list row) w,
  attributes_consistent (cur w) ->
  attributes_consistent (cur (snd (fetch_loop cnt res w))).
Proof.
  induction cnt as [|cnt IH]; intros res w Hw; cbn [fetch_loop]; [exact Hw|].
  pose proof (@fetchone_consistent w Hw) as H1.
  destruct (fetchone w) as [[r|e] w1]; cbn in *; [apply IH, H1 | exact H1].
Qed.

Lemma iterate_consistent (fuel : nat) : forall (acc : list row) w,
  attributes_consistent (cur w) ->
  attributes_consistent (cur (snd (iterate fuel acc w))).
Proof.
  induction fuel as [|fuel IH]; intros acc w Hw; cbn [iterate]; [exact Hw|].
  pose proof (@fetchone_consistent w Hw) as H1.
  destruct (fetchone w) as [[[r|]|e] w1]; cbn in *; try exact H1.
  apply IH, H1.
Qed.

Lemma execute_consistent (o : operation) (params : option Params)
    (multi : bool) w :
  attributes_consistent (cur w) ->
  attributes_consistent (cur (snd (execute o params multi w))).
Proof.
  intros H. pose proof H as (Hpos & Hend & Hiff).
  destruct (execute_cases o params multi w)
    as [-> | (b & st' & n' & k & err & _ & _ & ->)]; [exact H|]. clear H.
  unfold attributes_consistent, used_up_at_end, statement_iff_executed in *.
  cbn. split; [exact Hpos|]. split.
  - destruct err; [exact Hend | discriminate].
  - split; discriminate.
Qed.

Lemma run_call_consistent (m : method_call) w :
  attributes_consistent (cur w) ->
  attributes_consistent (cur (run_call m w)).
Proof.
  intros Hw. destruct m as [o params multi | | size | fuel | |]; cbn [run_call].
  - now apply execute_consistent.
  - now apply fetchone_consistent.
  - unfold fetchmany. destruct (_st (cur w)) as [st|]; [|exact Hw].
    destruct (negb (sql_stmt_type_ st =? TYPE_SELECT)); [exact Hw|].
    now apply fetch_loop_consistent.
  - now apply iterate_consistent.
  - exact Hw.
  - rewrite close_world. exact Hw.
Qed.

(** ** X8: after the end of the data, a new [execute] starts afresh *)

(** X8: take a cursor in any state that calls of its methods can bring
    about from its construction, with the end-of-data flag set.  If
    [execute] with a non-empty text then returns and the new statement is
    row-producing, the flag is cleared and the next [fetchone] goes to
    the transport with exactly one fetch: no row of the finished result
    set is served for the new statement. *)
Theorem execute_after_end_refetches (connection : option Conn) (n : Net)
    (ms : list method_call) (o : operation) (params : option Params)
    (multi : bool) st :
  let w := run_calls ms (fresh_world connection n) in
  let w1 := snd (execute o params multi w) in
  _end_data (cur w) = true ->
  op_truthy o = true ->
  fst (execute o params multi w) = Return tt ->
  _st (cur w1) = Some st ->
  sql_stmt_type_ st = TYPE_SELECT ->
  _end_data (cur w1) = false /\
  calls (snd (fetchone w1)) = calls w1 ++ [CallFetch st].
Proof.
  intros w w1 Hend Hop Hret Hst Hsel.
  assert (Hw : attributes_consistent (cur w)).
  { apply (run_calls_keep attributes_consistent run_call_consistent).
    apply new_cursor_consistent. }
  destruct Hw as (_ & Hused & _). specialize (Hused Hend).
  destruct (execute_keeps_buffer o params multi w) as (_ & Hrc & Hnr & _).
  fold w1 in Hrc, Hnr.
  assert (Hclear : _end_data (cur w1) = false).
  { subst w1. revert Hret. unfold execute. rewrite Hop. cbn.
    destruct (_connection (cur w)) as [conn|]; [|discriminate].
    destruct (encode_operation o) as [msg|b]; [discriminate|].
    destruct params as [p|]; cbn.
    - destruct (st_execute_all _ _ _ _ _) as [[[e|] st'] n'];
        [discriminate | reflexivity].
    - destruct (st_execute _ _ _ _) as [[[e|] st'] n'];
        [discriminate | reflexivity]. }
  split; [exact Hclear|].
  rewrite (fetchone_refill _ Hst Hsel Hclear) by lia.
  destruct (st_fetch st (net w1)) as [[e|rep] n']; [reflexivity|].
  cbn. destruct (end_of_data rep); reflexivity.
Qed.

(** ** X9: fetching before any statement exists *)

(** X9: in any state that calls of its methods can bring about from the
    construction of a cursor, as long as no text has been recorded as
    executed there is no statement, and [fetchone] and [fetchmany] raise
    AttributeError (not the InternalError of a statement without result
    set) and leave the world as it was. *)
Theorem fetch_before_execute (connection : option Conn) (n : Net)
    (ms : list method_call) :
  let w := run_calls ms (fresh_world connection n) in
  _executed (cur w) = None ->
  fetchone w = (Raise AttributeError, w) /\
  forall size, fetchmany size w = (Raise AttributeError, w).
Proof.
  intros w Hex.
  assert (Hw : attributes_consistent (cur w)).
  { apply (run_calls_keep attributes_consistent run_call_consistent).
    apply new_cursor_consistent. }
  destruct Hw as (_ & _ & Hiff). apply Hiff in Hex.
  unfold fetchone, fetchmany. rewrite Hex. split; reflexivity.
Qed.

(** ** X10: the cached path stays inside the buffer *)

Lemma new_cursor_in_bounds (connection : option Conn) :
  cache_in_bounds (new_cursor connection).
Proof. unfold cache_in_bounds. cbn. split; lia. Qed.

Lemma fetchone_in_bounds w :
  counted_replies ->
  cache_in_bounds (cur w) ->
  cache_in_bounds (cur (snd (fetchone w))).
Proof.
  intros Hcount H. pose proof H as (Hpos & Hin).
  unfold fetchone. destruct (_st (cur w)) as [st|] eqn:Hst; [|exact H].
  destruct (negb (sql_stmt_type_ st =? TYPE_SELECT)); [exact H|].
  destruct (_end_data (cur w)) eqn:He; [exact H|]. clear H.
  unfold cache_in_bounds in *.
  assert (Hcase : _next_row (cur w) < _row_cached (cur w) \/
                  _row_cached (cur w) <= _next_row (cur w)) by lia.
  destruct Hcase as [Hlt | Hge].
  - pose proof Hlt as Hlt'. apply Z.ltb_lt in Hlt'. rewrite Hlt'. cbn.
    split; [lia|]. intros _. exact (Hin Hlt).
  - assert (Hlt : (_next_row (cur w) <? _row_cached (cur w)) = false)
      by (apply Z.ltb_ge; lia).
    rewrite Hlt.
    destruct (st_fetch st (net w)) as [[e|rep] n'] eqn:Hf; cbn.
    + split; [lia | exact Hin].
    + destruct (end_of_data rep) eqn:Heod; cbn.
      * split; [lia|]. intros Hx. lia.
      * split; [lia|]. intros _. exists (result_set rep).
        split; [reflexivity|]. exact (proj2 (Hcount _ _ _ _ Hf Heod)).
Qed.

Lemma run_call_in_bounds (m : method_call) w :
  counted_replies ->
  cache_in_bounds (cur w) ->
  cache_in_bounds (cur (run_call m w)).
Proof.
  intros Hcount Hw.
  assert (Hloop : forall cnt res w0, cache_in_bounds (cur w0) ->
            cache_in_bounds (cur (snd (fetch_loop cnt res w0)))).
  { induction cnt as [|cnt IH]; intros res w0 H0; cbn [fetch_loop];
      [exact H0|].
    pose proof (@fetchone_in_bounds w0 Hcount H0) as H1.
    destruct (fetchone w0) as [[r|e] w1]; cbn in *; [apply IH, H1 | exact H1]. }
  assert (Hiter : forall fuel acc w0, cache_in_bounds (cur w0) ->
            cache_in_bounds (cur (snd (iterate fuel acc w0)))).
  { induction fuel as [|fuel IH]; intros acc w0 H0; cbn [iterate];
      [exact H0|].
    pose proof (@fetchone_in_bounds w0 Hcount H0) as H1.
    destruct (fetchone w0) as [[[r|]|e] w1]; cbn in *; try exact H1.
    apply IH, H1. }
  destruct m as [o params multi | | size | fuel | |]; cbn [run_call].
  - destruct (execute_cases o params multi w)
      as [-> | (b & st' & n' & k & err & _ & _ & ->)]; exact Hw.
  - now apply fetchone_in_bounds.
  - unfold fetchmany. destruct (_st (cur w)) as [st|]; [|exact Hw].
    destruct (negb (sql_stmt_type_ st =? TYPE_SELECT)); [exact Hw|].
    now apply Hloop.
  - now apply Hiter.
  - exact Hw.
  - rewrite close_world. exact Hw.
Qed.

(** X10: in front of a transport whose replies, unless they carry
    end-of-data, hold at least one row and claim no more rows than they
    hold, and in any state that calls of the methods can bring about from
    the construction of the cursor, [fetchone] raises nothing of its own
    over the buffer: when it raises, either there is no statement
    (AttributeError), or the statement has no result set (InternalError),
    or the exception is the one the transport's fetch raised. *)
Theorem fetchone_raises_only (connection : option Conn) (n : Net)
    (ms : list method_call) (e : exn) :
  counted_replies ->
  let w := run_calls ms (fresh_world connection n) in
  fst (fetchone w) = Raise e ->
  (_st (cur w) = None /\ e = AttributeError)
  \/ e = InternalError "No result set available."
  \/ exists st n', _st (cur w) = Some st /\ st_fetch st (net w) = (inl e, n').
Proof.
  intros Hcount w.
  assert (Hw : cache_in_bounds (cur w)).
  { apply (run_calls_keep cache_in_bounds
             (fun m w0 => @run_call_in_bounds m w0 Hcount)).
    apply new_cursor_in_bounds. }
  destruct Hw as (Hpos & Hin). unfold fetchone.
  destruct (_st (cur w)) as [st|] eqn:Hst;
    [|intros [= <-]; left; auto].
  destruct (negb (sql_stmt_type_ st =? TYPE_SELECT));
    [intros [= <-]; right; left; reflexivity|].
  destruct (_end_data (cur w)); [discriminate|].
  assert (Hcase : _next_row (cur w) < _row_cached (cur w) \/
                  _row_cached (cur w) <= _next_row (cur w)) by lia.
  destruct Hcase as [Hlt | Hge].
  - pose proof Hlt as Hlt'. apply Z.ltb_lt in Hlt'. rewrite Hlt'. cbn.
    destruct (Hin Hlt) as (rs & Hrs & Hlen). rewrite Hrs. cbn.
    replace (_next_row (cur w) + 1 - 1) with (_next_row (cur w)) by lia.
    destruct (@py_getitem_in_range _ rs (_next_row (cur w)))
      as (r & _ & Hg); [lia|].
    rewrite Hg. discriminate.
  - assert (Hlt : (_next_row (cur w) <? _row_cached (cur w)) = false)
      by (apply Z.ltb_ge; lia).
    rewrite Hlt.
    destruct (st_fetch st (net w)) as [[e0|rep] n'] eqn:Hf; cbn.
    + intros [= <-]. right; right. now exists st, n'.
    + destruct (end_of_data rep) eqn:Heod; cbn; [discriminate|].
      destruct (Hcount _ _ _ _ Hf Heod) as [Hne _].
      destruct (result_set rep) as [|r0 rs0]; [congruence|].
      cbn. discriminate.
Qed.

(** ** X11: a closed cursor stays closed *)



(** ** X12: which texts [execute] can encode *)

Lemma utf8_code_point_surrogate (x : Z) :
  utf8_code_point x = None <-> is_surrogate x = true.
Proof.
  unfold utf8_code_point, is_surrogate.
  destruct (x <? 128) eqn:H1.
  - apply Z.ltb_lt in H1. split; [discriminate|].
    intros H. apply andb_true_iff in H. destruct H as [H _].
    apply Z.leb_le in H. lia.
  - destruct (x <? 2048) eqn:H2.
    + apply Z.ltb_lt in H2. split; [discriminate|].
      intros H. apply andb_true_iff in H. destruct H as [H _].
      apply Z.leb_le in H. lia.
    + destruct ((55296 <=? x) && (x <=? 57343)); [tauto|].
      destruct (x <? 65536); split; discriminate.
Qed.

Lemma utf8_encode_surrogate (s : list Z) :
  utf8_encode s = None <-> existsb is_surrogate s = true.
Proof.
  induction s as [|x s IH]; cbn; [split; discriminate|].
  rewrite orb_true_iff, <- IH, <- utf8_code_point_surrogate.
  destruct (utf8_code_point x) as [b|]; [|tauto].
  destruct (utf8_encode s) as [bs|]; split; try tauto; try discriminate.
  intros [H|H]; discriminate H.
Qed.

Lemma utf8_encode_ascii (s : list Z) :
  Forall (fun x => 0 <= x < 128) s -> utf8_encode s = Some s.
Proof.
  induction 1 as [|x s Hx _ IH]; cbn; [reflexivity|].
  unfold utf8_code_point.
  replace (x <? 128) with true by (symmetry; apply Z.ltb_lt; lia).
  now rewrite IH.
Qed.

(** The codec's message when the first surrogate stands alone: it names
    the character and its position. *)
Lemma surrogate_start_app (pre : list Z) (x : Z) (post : list Z) :
  existsb is_surrogate pre = false ->
  is_surrogate x = true ->
  surrogate_start (pre ++ x :: post) = List.length pre.
Proof.
  intros Hpre Hx. induction pre as [|a pre IH]; cbn.
  - now rewrite Hx.
  - cbn in Hpre. apply orb_false_iff in Hpre. destruct Hpre as [Ha Hpre].
    rewrite Ha. f_equal. now apply IH.
Qed.

Lemma encode_error_msg_single (pre : list Z) (x : Z) (post : list Z) :
  existsb is_surrogate pre = false ->
  is_surrogate x = true ->
  surrogate_run post = 0%nat ->
  encode_error_msg (pre ++ x :: post)
  = ("'utf-8' codec can't encode character '\u" ++ hex4 x
     ++ "' in position " ++ dec (List.length pre)
     ++ ": surrogates not allowed")%string.
Proof.
  intros Hpre Hx Hpost. unfold encode_error_msg.
  rewrite (@surrogate_start_app pre x post Hpre Hx).
  rewrite skipn_app, skipn_all, Nat.sub_diag. cbn [skipn app surrogate_run].
  rewrite Hx, Hpost. cbn [Nat.eqb].
  rewrite app_nth2, Nat.sub_diag by lia. reflexivity.
Qed.

(** The message for a run of several surrogates: it names the first and
    the last position of the run. *)
Lemma encode_error_msg_run (pre : list Z) (x : Z) (post : list Z) :
  existsb is_surrogate pre = false ->
  is_surrogate x = true ->
  (1 <= surrogate_run post)%nat ->
  encode_error_msg (pre ++ x :: post)
  = ("'utf-8' codec can't encode characters in position "
     ++ dec (List.length pre) ++ "-"
     ++ dec (List.length pre + surrogate_run post)
     ++ ": surrogates not allowed")%string.
Proof.
  intros Hpre Hx Hpost. unfold encode_error_msg.
  rewrite (@surrogate_start_app pre x post Hpre Hx).
  rewrite skipn_app, skipn_all, Nat.sub_diag. cbn [skipn app surrogate_run].
  rewrite Hx.
  destruct (surrogate_run post) as [|r] eqn:Hr; [lia|]. cbn [Nat.eqb].
  replace (List.length pre + S (S r) - 1)%nat
    with (List.length pre + S r)%nat by lia.
  reflexivity.
Qed.

(** The text 'ab' followed by U+DFFF: the message names position 2. *)
Example encode_error_msg_at_2 :
  encode_error_msg [97; 98; 57343]
  = "'utf-8' codec can't encode character '\udfff' in position 2: surrogates not allowed"%string.
Proof. reflexivity. Qed.

(** Two surrogates in a row at the start of a text. *)
Example encode_error_msg_pair :
  encode_error_msg [55357; 56832; 97]
  = "'utf-8' codec can't encode characters in position 0-1: surrogates not allowed"%string.
Proof. reflexivity. Qed.

(** X12: for a non-empty [str] text on a connected cursor: if the text
    holds a surrogate code point, [execute] raises ProgrammingError with
    the codec's message for that text and leaves the world as it was
    (nothing is recorded, nothing is sent); when the first surrogate
    stands alone, that message names the character, with its four
    hexadecimal digits, and its position in the text; if the text holds
    no surrogate, it encodes and the bytes are recorded as last executed;
    and a text of ASCII characters is recorded byte for byte. *)
Theorem execute_text_encoding (s : list Z) (params : option Params)
    (multi : bool) w (conn : Conn) :
  truthy s = true ->
  _connection (cur w) = Some conn ->
  (existsb is_surrogate s = true ->
   execute (OpStr s) params multi w
   = (Raise (ProgrammingError (encode_error_msg s)), w))
  /\ (forall pre x post,
        s = pre ++ x :: post ->
        existsb is_surrogate pre = false ->
        is_surrogate x = true ->
        surrogate_run post = 0%nat ->
        execute (OpStr s) params multi w
        = (Raise
             (ProgrammingError
                ("'utf-8' codec can't encode character '\u" ++ hex4 x
                 ++ "' in position " ++ dec (List.length pre)
                 ++ ": surrogates not allowed")), w))
  /\ (existsb is_surrogate s = false ->
      exists b, utf8_encode s = Some b /\
        _executed (cur (snd (execute (OpStr s) params multi w))) = Some b)
  /\ (Forall (fun x => 0 <= x < 128) s ->
      _executed (cur (snd (execute (OpStr s) params multi w))) = Some s).
Proof.
  intros Hs Hconn.
  assert (Hrec : forall b, utf8_encode s = Some b ->
            _executed (cur (snd (execute (OpStr s) params multi w))) = Some b).
  { intros b Hb.
    assert (Henc : encode_operation (OpStr s) = inr b) by (cbn; now rewrite Hb).
    rewrite (@execute_dispatch _ (OpStr s) b params multi w conn Hs Hconn Henc).
    destruct params as [p|]; cbn zeta.
    - destruct (st_execute_all _ _ _ _ _) as [[err st'] n'].
      now destruct err.
    - destruct (st_execute _ _ _ _) as [[err st'] n'].
      now destruct err. }
  assert (Hraise : existsb is_surrogate s = true ->
            execute (OpStr s) params multi w
            = (Raise (ProgrammingError (encode_error_msg s)), w)).
  { intros Hsur. apply utf8_encode_surrogate in Hsur.
    unfold execute. cbn [op_truthy]. rewrite Hs, Hconn. cbn.
    now rewrite Hsur. }
  split; [exact Hraise|]. split; [|split].
  - intros pre x post Heq Hpre Hx Hpost.
    rewrite Hraise.
    + subst s. now rewrite (@encode_error_msg_single pre x post Hpre Hx Hpost).
    + subst s. rewrite existsb_app. cbn. rewrite Hx.
      now rewrite orb_true_r.
  - intros Hno. destruct (utf8_encode s) as [b|] eqn:Hb.
    + exists b. split; [reflexivity|]. now apply Hrec.
    + apply utf8_encode_surrogate in Hb. congruence.
  - intros Hascii. apply Hrec. now apply utf8_encode_ascii.
Qed.

End MoreProperties.

(** * The constructor and the statement label *)

(** ** Decimal numerals *)

Lemma to_int_not_pos_nil (z : Z) : Z.to_int z <> Decimal.Pos Decimal.Nil.
Proof.
  destruct z as [|p|p]; cbn; intros H; try discriminate H.
  injection H as H. exact (DecimalPos.Unsigned.to_uint_nonnil _ H).
Qed.

Lemma to_int_not_neg_nil (z : Z) : Z.to_int z <> Decimal.Neg Decimal.Nil.
Proof.
  destruct z as [|p|p]; cbn; intros H; try discriminate H.
  injection H as H. exact (DecimalPos.Unsigned.to_uint_nonnil _ H).
Qed.

(** [str] tells integers apart. *)
Lemma py_str_inj (a b : Z) : py_str a = py_str b -> a = b.
Proof.
  unfold py_str. intros H.
  apply (f_equal NilZero.int_of_string) in H.
  rewrite !NilZero.isi in H
    by (apply to_int_not_pos_nil || apply to_int_not_neg_nil).
  injection H as H. apply (f_equal Z.of_int) in H.
  now rewrite !DecimalZ.of_to in H.
Qed.

Section ConstructorProperties.

Context {api : StatementAPI} {capi : ConnectionAPI api}.

(** ** X13: when the constructor returns *)

(** X13: the constructor returns a cursor exactly when it is given a
    connection object whose liveness check returns, or raises
    AttributeError or TypeError, and whose [get_seq] then returns a value
    [z].  The cursor is then bound to that connection, has no statement,
    an empty buffer, end-of-data unset and array size 1, and its label is
    "SQL_CUR_" followed by the decimal numeral of [z]: the answer of the
    liveness check is not used. *)
Theorem constructor_returns (a : conn_arg) (n : Net) (c : TrafCursor)
    (label : string) (n' : Net) :
  TrafCursor_init a n = (Return (c, label), n') <->
  exists conn z,
    a = ConnObject conn /\
    (fst (is_connected conn n) = None \/
     fst (is_connected conn n) = Some AttributeError \/
     fst (is_connected conn n) = Some TypeError) /\
    get_seq conn (snd (is_connected conn n)) = (inr z, n') /\
    c = new_cursor (Some conn) /\
    label = ("SQL_CUR_" ++ py_str z)%string.
Proof.
  split.
  - destruct a as [| |conn]; cbn; try discriminate.
    unfold TrafCursor_init, _set_connection, _generate_stmtlabel.
    destruct (is_connected conn n) as [[e|] n1] eqn:Hlive; cbn.
    + destruct e; cbn; try discriminate;
        destruct (get_seq conn n1) as [[e'|z] n2] eqn:Hseq; cbn;
        try discriminate; intros [= <- <- <-];
        exists conn, z; rewrite Hlive; cbn; repeat split; auto.
    + destruct (get_seq conn n1) as [[e'|z] n2] eqn:Hseq; cbn;
        try discriminate; intros [= <- <- <-].
      exists conn, z. rewrite Hlive. cbn. repeat split; auto.
  - intros (conn & z & -> & Hlive & Hseq & -> & ->).
    unfold TrafCursor_init, _set_connection, _generate_stmtlabel.
    destruct (is_connected conn n) as [[e|] n1]; cbn in *.
    + destruct Hlive as [H | [H | H]]; try discriminate H;
        injection H as ->; cbn; rewrite Hseq; reflexivity.
    + rewrite Hseq. reflexivity.
Qed.

(** ** X14: when the constructor raises *)

(** X14: without a connection ([None], the default, or an object that
    cannot be weakly referenced) the constructor raises AttributeError
    and contacts nothing.  With a connection object, an exception of the
    liveness check other than AttributeError and TypeError leaves the
    constructor before [get_seq] is called, and an exception of [get_seq]
    leaves it as it is. *)
Theorem constructor_raises (n : Net) :
  TrafCursor_init ConnNone n = (Raise AttributeError, n)
  /\ TrafCursor_init ConnNoWeakref n = (Raise AttributeError, n)
  /\ (forall conn e n1,
        is_connected conn n = (Some e, n1) ->
        e <> AttributeError -> e <> TypeError ->
        TrafCursor_init (ConnObject conn) n = (Raise e, n1))
  /\ (forall conn n1 e n2,
        is_connected conn n = (None, n1) ->
        get_seq conn n1 = (inl e, n2) ->
        TrafCursor_init (ConnObject conn) n = (Raise e, n2)).
Proof.
  split; [reflexivity|]. split; [reflexivity|]. split.
  - intros conn e n1 Hlive Ha Ht.
    unfold TrafCursor_init, _set_connection. rewrite Hlive.
    destruct e; try reflexivity; congruence.
  - intros conn n1 e n2 Hlive Hseq.
    unfold TrafCursor_init, _set_connection, _generate_stmtlabel.
    rewrite Hlive. cbn. rewrite Hseq. reflexivity.
Qed.

(** ** X15: labels are as distinct as the sequence values *)

(** X15: two label generations, on any cursors and connections, give
    the same label exactly when [get_seq] gave them the same value: the
    labels of two cursors differ as soon as their sequence values do. *)
Theorem stmtlabel_injective (c1 c2 : TrafCursor) (conn1 conn2 : Conn)
    (n1 n2 m1 m2 : Net) (z1 z2 : Z) :
  _connection c1 = Some conn1 ->
  _connection c2 = Some conn2 ->
  get_seq conn1 n1 = (inr z1, m1) ->
  get_seq conn2 n2 = (inr z2, m2) ->
  (fst (_generate_stmtlabel c1 n1) = fst (_generate_stmtlabel c2 n2)
   <-> z1 = z2).
Proof.
  intros Hc1 Hc2 Hs1 Hs2. unfold _generate_stmtlabel.
  rewrite Hc1, Hc2, Hs1, Hs2. cbn [fst]. split.
  - intros H. injection H as H. now apply py_str_inj.
  - now intros ->.
Qed.

End ConstructorProperties.

(** * The batch transport: runs of the methods *)

(** The three rows of [two_batches] are ahead of [batch_selected], three
    transport fetches away from the end of the data. *)
Lemma batch_selected_ahead :
  @rows_ahead BatchAPI 1 (cur batch_selected) (net batch_selected)
    three_rows 3.
Proof.
  change three_rows with
    (unread (cur batch_selected)
     ++ ([row_of 10; row_of 20] ++ ([row_of 30] ++ []))).
  apply (@rows_ahead_some BatchAPI).
  - reflexivity.
  - unfold buffer_ready, buffer_invariant, buffer_len. cbn.
    repeat split; discriminate.
  - apply (@ahead_batch BatchAPI 1 (batch_net 7 None two_batches)
             {| result_set := [row_of 10; row_of 20];
                rows_fetched := 2; end_of_data := false |}
             (batch_net 7 None [(row_of 30, [])]) _ 2);
      [reflexivity | reflexivity | reflexivity | discriminate |].
    apply (@ahead_batch BatchAPI 1 (batch_net 7 None [(row_of 30, [])])
             {| result_set := [row_of 30];
                rows_fetched := 1; end_of_data := false |}
             (batch_net 7 None []) _ 1);
      [reflexivity | reflexivity | reflexivity | discriminate |].
    apply (@ahead_end BatchAPI 1 (batch_net 7 None []) last_reply
             (batch_net 7 None [])); reflexivity.
Defined.

Lemma three_rows_truthy : rows_truthy three_rows.
Proof. repeat constructor. Defined.

(** The batch transport counts its rows. *)
Lemma batch_replies_counted : @counted_replies BatchAPI.
Proof.
  intros st n r n' Hf Heod. cbn in Hf. unfold batch_fetch in Hf.
  destruct (batches n) as [|[r0 rs0] rest].
  - injection Hf as <- _. discriminate Heod.
  - injection Hf as <- _. cbn. split; [discriminate | lia].
Defined.

Lemma fetchone_times_in_order_witness :
  fst (fetchone_times 5 batch_selected)
  = [Return (Some (row_of 10)); Return (Some (row_of 20));
     Return (Some (row_of 30)); Return None; Return None].
Proof.
  exact (@fetchone_times_in_order BatchAPI 5 batch_selected 1 three_rows 3
           eq_refl eq_refl batch_selected_ahead).
Defined.

Lemma fetchmany_rows_in_order_witness :
  fst (fetchmany 2 batch_selected) = Return [row_of 10; row_of 20].
Proof.
  destruct (@fetchmany_rows_in_order BatchAPI 2 batch_selected 1 three_rows 3
              eq_refl eq_refl batch_selected_ahead three_rows_truthy)
    as (w' & j & k' & H & _).
  rewrite H. reflexivity.
Defined.

Lemma iterate_yields_all_rows_witness :
  fst (iterate 5 [] batch_selected) = Some (Return three_rows).
Proof.
  destruct (@iterate_yields_all_rows BatchAPI 5 batch_selected 1 three_rows 3
              eq_refl eq_refl batch_selected_ahead ltac:(cbn; lia))
    as (w' & H & _).
  rewrite H. reflexivity.
Defined.

Lemma fetchmany_split_witness :
  fetchmany (1 + 1) batch_selected
  = (Return ([row_of 10] ++ [row_of 20]),
     snd (fetchmany 1 (snd (fetchmany 1 batch_selected)))).
Proof.
  apply (@fetchmany_split BatchAPI 1 1 batch_selected [row_of 10] [row_of 20]
           (snd (fetchmany 1 batch_selected))
           (snd (fetchmany 1 (snd (fetchmany 1 batch_selected)))));
    [discriminate | discriminate | reflexivity | reflexivity].
Defined.

Lemma fetchmany_bounds_witness :
  exists j, (j <= 2)%nat /\
    calls (snd (fetchmany 2 batch_selected))
    = calls batch_selected ++ repeat (CallFetch (1 : @Stmt BatchAPI)) j.
Proof.
  destruct (@fetchmany_bounds BatchAPI 2 batch_selected 1 eq_refl)
    as (j & Hj & Hc & _).
  exists j. split; [exact Hj | exact Hc].
Defined.

Lemma execute_after_end_refetches_witness :
  _end_data (cur batch_exhausted) = true /\
  calls (snd (fetchone (snd (execute select_text None false batch_exhausted))))
  = calls (snd (execute select_text None false batch_exhausted))
    ++ [CallFetch (1 : @Stmt BatchAPI)].
Proof.
  split; [reflexivity|].
  apply (@execute_after_end_refetches BatchAPI (Some tt)
           (batch_net 7 None two_batches) read_to_end select_text None false 1
           eq_refl eq_refl eq_refl eq_refl eq_refl).
Defined.

Lemma fetch_before_execute_witness :
  fetchone (run_calls [DoFetchone; DoClose]
              (@fresh_world BatchAPI (Some tt) (batch_net 7 None two_batches)))
  = (Raise AttributeError,
     run_calls [DoFetchone; DoClose]
       (@fresh_world BatchAPI (Some tt) (batch_net 7 None two_batches))).
Proof.
  apply (@fetch_before_execute BatchAPI (Some tt)
           (batch_net 7 None two_batches) [DoFetchone; DoClose] eq_refl).
Defined.

Lemma fetchone_raises_only_witness :
  (_st (cur (run_calls [DoExecute insert_text None false]
               (@fresh_world BatchAPI (Some tt) (batch_net 7 None [])))) = None
   /\ InternalError "No result set available." = AttributeError)
  \/ InternalError "No result set available."
     = InternalError "No result set available."
  \/ exists st n',
       _st (cur (run_calls [DoExecute insert_text None false]
                   (@fresh_world BatchAPI (Some tt) (batch_net 7 None []))))
       = Some st /\
       @st_fetch BatchAPI st
         (net (run_calls [DoExecute insert_text None false]
                 (@fresh_world BatchAPI (Some tt) (batch_net 7 None []))))
       = (inl (InternalError "No result set available."), n').
Proof.
  exact (@fetchone_raises_only BatchAPI (Some tt) (batch_net 7 None [])
           [DoExecute insert_text None false]
           (InternalError "No result set available.")
           batch_replies_counted eq_refl).
Defined.


Lemma execute_text_encoding_witness :
  _executed
    (cur (snd (@execute BatchAPI (OpStr [115; 101; 108; 101; 99; 116]) None
                 false (batch_world []))))
  = Some [115; 101; 108; 101; 99; 116].
Proof.
  apply (proj2 (proj2 (proj2 (@execute_text_encoding BatchAPI
                                [115; 101; 108; 101; 99; 116] None false
                                (batch_world []) tt eq_refl eq_refl)))).
  repeat constructor; discriminate.
Defined.

Lemma constructor_raises_witness :
  @TrafCursor_init BatchAPI BatchConnection (ConnObject (tt : @Conn BatchAPI))
    (batch_net 7 (Some (InterfaceError "gone")) [])
  = (Raise (InterfaceError "gone"),
     batch_net 7 (Some (InterfaceError "gone")) []).
Proof.
  apply (proj1 (proj2 (proj2
           (@constructor_raises BatchAPI BatchConnection
              (batch_net 7 (Some (InterfaceError "gone")) []))))
           tt (InterfaceError "gone")
           (batch_net 7 (Some (InterfaceError "gone")) []) eq_refl);
    discriminate.
Defined.

Lemma stmtlabel_injective_witness :
  fst (@_generate_stmtlabel BatchAPI BatchConnection
         (@new_cursor BatchAPI (Some tt)) (batch_net 7 None []))
  = fst (@_generate_stmtlabel BatchAPI BatchConnection
           (@new_cursor BatchAPI (Some tt)) (batch_net 8 None []))
  <-> 7 = 8.
Proof.
  exact (@stmtlabel_injective BatchAPI BatchConnection
           (@new_cursor BatchAPI (Some tt)) (@new_cursor BatchAPI (Some tt))
           tt tt (batch_net 7 None []) (batch_net 8 None [])
           (batch_net 8 None []) (batch_net 9 None []) 7 8
           eq_refl eq_refl eq_refl eq_refl).
Defined.
